(** * practice1.c: a GPIO button/LED kernel module

    Shallow embedding of [src/practice1.c] (module init, module exit and the
    four interrupt handlers) over an explicit model of the kernel services the
    module calls, followed by the properties of the embedded code.

    The module's file-scope statics become the record [globals]; the kernel's
    line table, exported lines, line levels and interrupt table become the
    record [hardware]; every statement with an effect that another execution
    context can observe (a kernel call, a store to a static) records one
    [event] in the world's [trace]. The trace is kept newest event first;
    [events] gives the events of one computation in program order. *)

From stdpp Require Import gmap strings list.

#[local] Open Scope string_scope.
#[local] Open Scope list_scope.
#[local] Open Scope Z_scope.

(** ** Constants of the source file *)

Definition gpioLED1 : Z := 14.
Definition gpioLED2 : Z := 15.
Definition gpioButtonA : Z := 8.
Definition gpioButtonB : Z := 7.
Definition gpioButtonC : Z := 23.
Definition gpioButtonD : Z := 24.

Definition argv1 : list string := ["/usr/bin/buttonScripts/buttonA.sh"].
Definition argv2 : list string := ["/usr/bin/buttonScripts/buttonB.sh"].
Definition argv3 : list string := ["/usr/bin/buttonScripts/buttonC.sh"].
Definition argv4 : list string := ["/usr/bin/buttonScripts/buttonD.sh"].
Definition envp : list string := ["HOME=/"].

(** errno values of <linux/errno.h> used by the module or by the kernel
    services it calls. *)
Definition ENOENT : Z := 2.
Definition EPERM : Z := 1.
Definition EBUSY : Z := 16.
Definition ENODEV : Z := 19.
Definition EINVAL : Z := 22.

(** [unsigned int] is 32 bits wide; arithmetic on it wraps. *)
Definition UINT_MAX : Z := 4294967295.
Definition wrap32 (z : Z) : Z := z mod 2 ^ 32.

(** Every conversion in the format strings of the module is [%d]: the 32-bit
    argument is shown as an [int]. A value of an [int] is shown as it is; an
    [unsigned int] from 2^31 on is shown as the negative number 2^32 below
    it. *)
Definition as_int (z : Z) : Z := (z + 2 ^ 31) mod 2 ^ 32 - 2 ^ 31.

(** [enum irqreturn] of <linux/irqreturn.h>. *)
Inductive irqreturn := IRQ_NONE | IRQ_HANDLED | IRQ_WAKE_THREAD.

Inductive led := LED1 | LED2.
Inductive button := ButtonA | ButtonB | ButtonC | ButtonD.
Inductive direction := DirInput | DirOutput.

#[global] Instance irqreturn_eq_dec : EqDecision irqreturn.
Proof. solve_decision. Defined.
#[global] Instance led_eq_dec : EqDecision led.
Proof. solve_decision. Defined.
#[global] Instance button_eq_dec : EqDecision button.
Proof. solve_decision. Defined.
#[global] Instance direction_eq_dec : EqDecision direction.
Proof. solve_decision. Defined.

(** ** Observable events, in program order *)

Inductive event :=
| EvPrintk (fmt : string) (args : list Z)
| EvGpioIsValid (pin : Z) (res : bool)
| EvGpioRequest (pin : Z) (label : string) (res : Z)
| EvGpioDirectionOutput (pin : Z) (value : bool) (res : Z)
| EvGpioDirectionInput (pin : Z) (res : Z)
| EvGpioSetDebounce (pin : Z) (ms : Z) (res : Z)
| EvGpioExport (pin : Z) (direction_may_change : bool) (res : Z)
| EvGpioUnexport (pin : Z)
| EvGpioGetValue (pin : Z) (res : Z)
| EvGpioSetValue (pin : Z) (value : bool)
| EvGpioFree (pin : Z)
| EvGpioToIrq (pin : Z) (res : Z)
| EvRequestIrq (irq : Z) (handler : button) (res : Z)
| EvFreeIrq (irq : Z)
| EvCallUsermodehelper (path : string) (argv : list string) (env : list string) (res : Z)
| EvStoreLedOn (l : led) (value : bool)
| EvStoreNumberPresses (b : button) (value : Z)
| EvStoreIrqNumber (b : button) (value : Z).

#[global] Instance event_eq_dec : EqDecision event.
Proof. solve_decision. Defined.

(** ** State *)

(** The file-scope statics that the module writes. *)
Record globals := Globals {
  irqNumberA : Z;
  irqNumberB : Z;
  irqNumberC : Z;
  irqNumberD : Z;
  numberPressesA : Z;
  numberPressesB : Z;
  numberPressesC : Z;
  numberPressesD : Z;
  led1On : bool;
  led2On : bool
}.

(** Modelled from the spec: the line manager's state (section 3, GpioLine:
    ownership flag, exported flag, direction, current logical value) and the
    interrupt bindings (section 4.2), which live in the kernel and not in
    the source file. *)
Record hardware := Hardware {
  owned : gset Z;
  exported : gset Z;
  dir : gmap Z direction;
  debounce : gmap Z Z;
  level : gmap Z bool;
  irqs : gmap Z button
}.

Record world := World {
  mem : globals;
  hw : hardware;
  trace : list event
}.

(** What the platform decides: which pin numbers are valid, how pins map to
    interrupt numbers, which interrupt numbers it lets a driver register, and
    the result of launching a user-mode helper. *)
Record platform := Platform {
  plat_valid : Z → bool;
  plat_irq : Z → Z;
  plat_irq_ok : Z → bool;
  plat_umh : string → Z
}.

(** Values of the statics when the module is loaded (their initialisers). *)
Definition statics : globals :=
  {| irqNumberA := 0; irqNumberB := 0; irqNumberC := 0; irqNumberD := 0;
     numberPressesA := 0; numberPressesB := 0;
     numberPressesC := 0; numberPressesD := 0;
     led1On := false; led2On := false |}.

Definition no_hardware : hardware :=
  {| owned := ∅; exported := ∅; dir := ∅; debounce := ∅; level := ∅; irqs := ∅ |}.

(** The world at module load: statics at their initialisers, no line owned,
    nothing logged. *)
Definition boot : world := {| mem := statics; hw := no_hardware; trace := [] |}.

(** ** The monad of the embedding: state passing over [world] *)

Definition M (A : Type) : Type := world → A * world.

#[global] Instance M_ret : MRet M := λ A a w, (a, w).
#[global] Instance M_bind : MBind M := λ A B f m w, let '(a, w') := m w in f a w'.

Definition emit (e : event) : M unit :=
  λ w, (tt, {| mem := mem w; hw := hw w; trace := e :: trace w |}).

Definition get_mem : M globals := λ w, (mem w, w).
Definition put_mem (g : globals) : M unit :=
  λ w, (tt, {| mem := g; hw := hw w; trace := trace w |}).
Definition get_hw : M hardware := λ w, (hw w, w).
Definition put_hw (h : hardware) : M unit :=
  λ w, (tt, {| mem := mem w; hw := h; trace := trace w |}).

Definition set_owned (s : gset Z) (h : hardware) : hardware :=
  {| owned := s; exported := exported h; dir := dir h;
     debounce := debounce h; level := level h; irqs := irqs h |}.
Definition set_exported (s : gset Z) (h : hardware) : hardware :=
  {| owned := owned h; exported := s; dir := dir h;
     debounce := debounce h; level := level h; irqs := irqs h |}.
Definition set_dir (d : gmap Z direction) (h : hardware) : hardware :=
  {| owned := owned h; exported := exported h; dir := d;
     debounce := debounce h; level := level h; irqs := irqs h |}.
Definition set_debounce (d : gmap Z Z) (h : hardware) : hardware :=
  {| owned := owned h; exported := exported h; dir := dir h;
     debounce := d; level := level h; irqs := irqs h |}.
Definition set_level (l : gmap Z bool) (h : hardware) : hardware :=
  {| owned := owned h; exported := exported h; dir := dir h;
     debounce := debounce h; level := l; irqs := irqs h |}.
Definition set_irqs (i : gmap Z button) (h : hardware) : hardware :=
  {| owned := owned h; exported := exported h; dir := dir h;
     debounce := debounce h; level := level h; irqs := i |}.

(** ** Kernel services called by the module *)

Section Kernel.
Context (P : platform).

(** The logged line: the format string and, for each [%d], the number that
    the log shows for the argument passed. *)
Definition printk (fmt : string) (args : list Z) : M unit :=
  emit (EvPrintk fmt (as_int <$> args)).

Definition gpio_is_valid (pin : Z) : M bool :=
  let res := plat_valid P pin in
  emit (EvGpioIsValid pin res) ;; mret res.

(** Modelled from the spec: [acquire] of section 4.1, which fails without
    side effects if the pin identifier is outside the valid hardware range
    (-EINVAL) or already owned (-EBUSY). *)
Definition gpio_request (pin : Z) (label : string) : M Z :=
  h ← get_hw;
  let ok := plat_valid P pin && bool_decide (pin ∉ owned h) in
  let res := if ok then 0 else if plat_valid P pin then - EBUSY else - EINVAL in
  put_hw (set_owned (if ok then {[pin]} ∪ owned h else owned h) h) ;;
  emit (EvGpioRequest pin label res) ;;
  mret res.

(** Modelled from the spec: direction is set on a valid line; configuring a
    line as output also drives its initial value. *)
Definition gpio_direction_output (pin : Z) (value : bool) : M Z :=
  h ← get_hw;
  let ok := plat_valid P pin in
  let res := if ok then 0 else - EINVAL in
  put_hw (set_level (if ok then <[pin := value]> (level h) else level h)
           (set_dir (if ok then <[pin := DirOutput]> (dir h) else dir h) h)) ;;
  emit (EvGpioDirectionOutput pin value res) ;;
  mret res.

Definition gpio_direction_input (pin : Z) : M Z :=
  h ← get_hw;
  let ok := plat_valid P pin in
  let res := if ok then 0 else - EINVAL in
  put_hw (set_dir (if ok then <[pin := DirInput]> (dir h) else dir h) h) ;;
  emit (EvGpioDirectionInput pin res) ;;
  mret res.

(** Modelled from the spec: [setDebounce] of section 4.1 configures the
    debounce filter of the line with a time window. *)
Definition gpio_set_debounce (pin : Z) (ms : Z) : M Z :=
  h ← get_hw;
  let ok := plat_valid P pin in
  let res := if ok then 0 else - EINVAL in
  put_hw (set_debounce (if ok then <[pin := ms]> (debounce h) else debounce h) h) ;;
  emit (EvGpioSetDebounce pin ms res) ;;
  mret res.

(** Modelled from the spec: [export] of section 4.1; exporting requires
    prior acquisition (section 3). *)
Definition gpio_export (pin : Z) (direction_may_change : bool) : M Z :=
  h ← get_hw;
  let ok := bool_decide (pin ∈ owned h) && bool_decide (pin ∉ exported h) in
  let res := if ok then 0 else - EPERM in
  put_hw (set_exported (if ok then {[pin]} ∪ exported h else exported h) h) ;;
  emit (EvGpioExport pin direction_may_change res) ;;
  mret res.

Definition gpio_unexport (pin : Z) : M unit :=
  h ← get_hw;
  put_hw (set_exported (exported h ∖ {[pin]}) h) ;;
  emit (EvGpioUnexport pin).

(** Modelled from the spec: [getValue]/[setValue] of section 4.1, a direct
    read/write of the line's level; a write to a pin outside the valid range
    has no effect. *)
Definition gpio_get_value (pin : Z) : M Z :=
  h ← get_hw;
  let res := Z.b2z (default false (level h !! pin)) in
  emit (EvGpioGetValue pin res) ;; mret res.

Definition gpio_set_value (pin : Z) (value : bool) : M unit :=
  h ← get_hw;
  put_hw (set_level (if plat_valid P pin then <[pin := value]> (level h)
                     else level h) h) ;;
  emit (EvGpioSetValue pin value).

(** Modelled from the spec: [release] of section 4.1 unexports the line if
    exported, then frees ownership; an unowned line is tolerated. *)
Definition gpio_free (pin : Z) : M unit :=
  h ← get_hw;
  put_hw (set_owned (owned h ∖ {[pin]})
           (set_exported (exported h ∖ {[pin]}) h)) ;;
  emit (EvGpioFree pin).

Definition gpio_to_irq (pin : Z) : M Z :=
  let res := plat_irq P pin in
  emit (EvGpioToIrq pin res) ;; mret res.

(** Modelled from the spec: [bind] of section 4.2 registers the callback or
    fails (BindFailed): the platform rejects the interrupt number (-EINVAL)
    or the interrupt already has a handler (-EBUSY). *)
Definition request_irq (irq : Z) (handler : button) : M Z :=
  h ← get_hw;
  let ok := plat_irq_ok P irq && bool_decide (irqs h !! irq = None) in
  let res := if ok then 0 else if plat_irq_ok P irq then - EBUSY else - EINVAL in
  put_hw (set_irqs (if ok then <[irq := handler]> (irqs h) else irqs h) h) ;;
  emit (EvRequestIrq irq handler res) ;;
  mret res.

(** Modelled from the spec: [unbind] of section 4.2 deregisters the
    callback of the interrupt. *)
Definition free_irq (irq : Z) : M unit :=
  h ← get_hw;
  put_hw (set_irqs (delete irq (irqs h)) h) ;;
  emit (EvFreeIrq irq).

(** Modelled from the spec: [dispatch] of section 4.4 schedules the task
    without waiting (UMH_NO_WAIT); the launch may fail, which the returned
    value reports. *)
Definition call_usermodehelper (path : string) (argv env : list string) : M Z :=
  let res := plat_umh P path in
  emit (EvCallUsermodehelper path argv env res) ;; mret res.

(** *** Loads and stores of the statics *)

Definition store_led1On (v : bool) : M unit :=
  g ← get_mem;
  put_mem {| irqNumberA := irqNumberA g; irqNumberB := irqNumberB g;
             irqNumberC := irqNumberC g; irqNumberD := irqNumberD g;
             numberPressesA := numberPressesA g; numberPressesB := numberPressesB g;
             numberPressesC := numberPressesC g; numberPressesD := numberPressesD g;
             led1On := v; led2On := led2On g |} ;;
  emit (EvStoreLedOn LED1 v).

Definition store_led2On (v : bool) : M unit :=
  g ← get_mem;
  put_mem {| irqNumberA := irqNumberA g; irqNumberB := irqNumberB g;
             irqNumberC := irqNumberC g; irqNumberD := irqNumberD g;
             numberPressesA := numberPressesA g; numberPressesB := numberPressesB g;
             numberPressesC := numberPressesC g; numberPressesD := numberPressesD g;
             led1On := led1On g; led2On := v |} ;;
  emit (EvStoreLedOn LED2 v).

Definition store_numberPressesA (v : Z) : M unit :=
  g ← get_mem;
  put_mem {| irqNumberA := irqNumberA g; irqNumberB := irqNumberB g;
             irqNumberC := irqNumberC g; irqNumberD := irqNumberD g;
             numberPressesA := v; numberPressesB := numberPressesB g;
             numberPressesC := numberPressesC g; numberPressesD := numberPressesD g;
             led1On := led1On g; led2On := led2On g |} ;;
  emit (EvStoreNumberPresses ButtonA v).

Definition store_numberPressesB (v : Z) : M unit :=
  g ← get_mem;
  put_mem {| irqNumberA := irqNumberA g; irqNumberB := irqNumberB g;
             irqNumberC := irqNumberC g; irqNumberD := irqNumberD g;
             numberPressesA := numberPressesA g; numberPressesB := v;
             numberPressesC := numberPressesC g; numberPressesD := numberPressesD g;
             led1On := led1On g; led2On := led2On g |} ;;
  emit (EvStoreNumberPresses ButtonB v).

Definition store_numberPressesC (v : Z) : M unit :=
  g ← get_mem;
  put_mem {| irqNumberA := irqNumberA g; irqNumberB := irqNumberB g;
             irqNumberC := irqNumberC g; irqNumberD := irqNumberD g;
             numberPressesA := numberPressesA g; numberPressesB := numberPressesB g;
             numberPressesC := v; numberPressesD := numberPressesD g;
             led1On := led1On g; led2On := led2On g |} ;;
  emit (EvStoreNumberPresses ButtonC v).

Definition store_numberPressesD (v : Z) : M unit :=
  g ← get_mem;
  put_mem {| irqNumberA := irqNumberA g; irqNumberB := irqNumberB g;
             irqNumberC := irqNumberC g; irqNumberD := irqNumberD g;
             numberPressesA := numberPressesA g; numberPressesB := numberPressesB g;
             numberPressesC := numberPressesC g; numberPressesD := v;
             led1On := led1On g; led2On := led2On g |} ;;
  emit (EvStoreNumberPresses ButtonD v).

Definition store_irqNumberA (v : Z) : M unit :=
  g ← get_mem;
  put_mem {| irqNumberA := v; irqNumberB := irqNumberB g;
             irqNumberC := irqNumberC g; irqNumberD := irqNumberD g;
             numberPressesA := numberPressesA g; numberPressesB := numberPressesB g;
             numberPressesC := numberPressesC g; numberPressesD := numberPressesD g;
             led1On := led1On g; led2On := led2On g |} ;;
  emit (EvStoreIrqNumber ButtonA v).

Definition store_irqNumberB (v : Z) : M unit :=
  g ← get_mem;
  put_mem {| irqNumberA := irqNumberA g; irqNumberB := v;
             irqNumberC := irqNumberC g; irqNumberD := irqNumberD g;
             numberPressesA := numberPressesA g; numberPressesB := numberPressesB g;
             numberPressesC := numberPressesC g; numberPressesD := numberPressesD g;
             led1On := led1On g; led2On := led2On g |} ;;
  emit (EvStoreIrqNumber ButtonB v).

Definition store_irqNumberC (v : Z) : M unit :=
  g ← get_mem;
  put_mem {| irqNumberA := irqNumberA g; irqNumberB := irqNumberB g;
             irqNumberC := v; irqNumberD := irqNumberD g;
             numberPressesA := numberPressesA g; numberPressesB := numberPressesB g;
             numberPressesC := numberPressesC g; numberPressesD := numberPressesD g;
             led1On := led1On g; led2On := led2On g |} ;;
  emit (EvStoreIrqNumber ButtonC v).

Definition store_irqNumberD (v : Z) : M unit :=
  g ← get_mem;
  put_mem {| irqNumberA := irqNumberA g; irqNumberB := irqNumberB g;
             irqNumberC := irqNumberC g; irqNumberD := v;
             numberPressesA := numberPressesA g; numberPressesB := numberPressesB g;
             numberPressesC := numberPressesC g; numberPressesD := numberPressesD g;
             led1On := led1On g; led2On := led2On g |} ;;
  emit (EvStoreIrqNumber ButtonD v).

Definition read {A} (f : globals → A) : M A := λ w, (f (mem w), w).

(** ** The module: [ebbgpio_init] *)

Definition ebbgpio_init : M Z :=
  let resultA := 0 in
  let resultB := 0 in
  let resultC := 0 in
  let resultD := 0 in
  printk "GPIO_TEST: Initializing the GPIO_TEST LKM\n" [] ;;
  v1 ← gpio_is_valid gpioLED1;
  if negb v1 then
    printk "GPIO_TEST: invalid LED 1 GPIO\n" [] ;;
    mret (- ENODEV)
  else
  v2 ← gpio_is_valid gpioLED2;
  if negb v2 then
    printk "GPIO_TEST: invalid LED 2 GPIO\n" [] ;;
    mret (- ENODEV)
  else
  store_led1On true ;;
  store_led2On true ;;
  gpio_request gpioLED1 "sysfs" ;;
  gpio_request gpioLED2 "sysfs" ;;
  l1 ← read led1On;
  gpio_direction_output gpioLED1 l1 ;;
  l2 ← read led2On;
  gpio_direction_output gpioLED2 l2 ;;
  gpio_export gpioLED1 false ;;
  gpio_export gpioLED2 false ;;
  gpio_request gpioButtonA "sysfs" ;;
  gpio_direction_input gpioButtonA ;;
  gpio_set_debounce gpioButtonA 200 ;;
  gpio_request gpioButtonB "sysfs" ;;
  gpio_direction_input gpioButtonB ;;
  gpio_set_debounce gpioButtonB 200 ;;
  gpio_request gpioButtonC "sysfs" ;;
  gpio_direction_input gpioButtonC ;;
  gpio_set_debounce gpioButtonC 200 ;;
  gpio_request gpioButtonD "sysfs" ;;
  gpio_direction_input gpioButtonD ;;
  gpio_set_debounce gpioButtonD 200 ;;
  sA ← gpio_get_value gpioButtonA;
  printk "GPIO_TEST: The button A state is currently: %d\n" [sA] ;;
  sB ← gpio_get_value gpioButtonB;
  printk "GPIO_TEST: The button B state is currently: %d\n" [sB] ;;
  sC ← gpio_get_value gpioButtonC;
  printk "GPIO_TEST: The button C state is currently: %d\n" [sC] ;;
  sD ← gpio_get_value gpioButtonD;
  printk "GPIO_TEST: The button D state is currently: %d\n" [sD] ;;
  iA ← gpio_to_irq gpioButtonA;
  store_irqNumberA (wrap32 iA) ;;
  nA ← read irqNumberA;
  printk "GPIO_TEST: The button A is mapped to IRQ: %d\n" [nA] ;;
  iB ← gpio_to_irq gpioButtonB;
  store_irqNumberB (wrap32 iB) ;;
  nB ← read irqNumberB;
  printk "GPIO_TEST: The button B is mapped to IRQ: %d\n" [nB] ;;
  iC ← gpio_to_irq gpioButtonC;
  store_irqNumberC (wrap32 iC) ;;
  nC ← read irqNumberC;
  printk "GPIO_TEST: The button C is mapped to IRQ: %d\n" [nC] ;;
  iD ← gpio_to_irq gpioButtonD;
  store_irqNumberD (wrap32 iD) ;;
  nD ← read irqNumberD;
  printk "GPIO_TEST: The button D is mapped to IRQ: %d\n" [nD] ;;
  qA ← read irqNumberA;
  resultA ← request_irq qA ButtonA;
  qB ← read irqNumberB;
  resultB ← request_irq qB ButtonB;
  qC ← read irqNumberC;
  resultC ← request_irq qC ButtonC;
  qD ← read irqNumberD;
  resultD ← request_irq qD ButtonD;
  printk "GPIO_TEST: The interrupt request result is: %d\n" [resultA] ;;
  mret resultA.

(** ** The module: [ebbgpio_exit] *)

Definition ebbgpio_exit : M unit :=
  sD ← gpio_get_value gpioButtonD;
  printk "GPIO_TEST: The button state is currently: %d\n" [sD] ;;
  pD ← read numberPressesD;
  printk "GPIO_TEST: The button was pressed %d times\n" [pD] ;;
  gpio_set_value gpioLED1 false ;;
  gpio_set_value gpioLED2 false ;;
  gpio_unexport gpioLED1 ;;
  gpio_unexport gpioLED2 ;;
  nA ← read irqNumberA;
  free_irq nA ;;
  gpio_unexport gpioButtonA ;;
  nB ← read irqNumberB;
  free_irq nB ;;
  gpio_unexport gpioButtonB ;;
  nC ← read irqNumberC;
  free_irq nC ;;
  gpio_unexport gpioButtonC ;;
  nD ← read irqNumberD;
  free_irq nD ;;
  gpio_unexport gpioButtonD ;;
  gpio_free gpioLED1 ;;
  gpio_free gpioLED2 ;;
  gpio_free gpioButtonA ;;
  gpio_free gpioButtonB ;;
  gpio_free gpioButtonC ;;
  gpio_free gpioButtonD ;;
  cA ← read numberPressesA;
  printk "Button A has been pressed %d times." [cA] ;;
  cB ← read numberPressesB;
  printk "Button B has been pressed %d times." [cB] ;;
  cC ← read numberPressesC;
  printk "Button C has been pressed %d times." [cC] ;;
  cD ← read numberPressesD;
  printk "Button D has been pressed %d times." [cD] ;;
  printk "GPIO_TEST: Goodbye from the LKM!\n" [].

(** ** The module: the four interrupt handlers

    The parameters [dev_id] and [regs] of the source are never read and are
    left out; [irq] is kept. *)

Definition ebbgpio_irq_handlerA (irq : Z) : M irqreturn :=
  store_led1On true ;;
  l ← read led1On;
  gpio_set_value gpioLED1 l ;;
  s ← gpio_get_value gpioButtonA;
  printk "GPIO_TEST: Interrupt! (button A state is %d)\n" [s] ;;
  call_usermodehelper (default "" (head argv1)) argv1 envp ;;
  n ← read numberPressesA;
  store_numberPressesA (wrap32 (n + 1)) ;;
  mret IRQ_HANDLED.

Definition ebbgpio_irq_handlerB (irq : Z) : M irqreturn :=
  store_led1On false ;;
  l ← read led1On;
  gpio_set_value gpioLED1 l ;;
  s ← gpio_get_value gpioButtonB;
  printk "GPIO_TEST: Interrupt! (button B state is %d)\n" [s] ;;
  call_usermodehelper (default "" (head argv2)) argv2 envp ;;
  n ← read numberPressesB;
  store_numberPressesB (wrap32 (n + 1)) ;;
  mret IRQ_HANDLED.

Definition ebbgpio_irq_handlerC (irq : Z) : M irqreturn :=
  store_led2On true ;;
  l ← read led2On;
  gpio_set_value gpioLED2 l ;;
  s ← gpio_get_value gpioButtonC;
  printk "GPIO_TEST: Interrupt! (button C state is %d)\n" [s] ;;
  call_usermodehelper (default "" (head argv3)) argv3 envp ;;
  n ← read numberPressesC;
  store_numberPressesC (wrap32 (n + 1)) ;;
  mret IRQ_HANDLED.

Definition ebbgpio_irq_handlerD (irq : Z) : M irqreturn :=
  store_led2On false ;;
  l ← read led2On;
  gpio_set_value gpioLED2 l ;;
  s ← gpio_get_value gpioButtonD;
  printk "GPIO_TEST: Interrupt! (button D state is %d)\n" [s] ;;
  call_usermodehelper (default "" (head argv4)) argv4 envp ;;
  n ← read numberPressesD;
  store_numberPressesD (wrap32 (n + 1)) ;;
  mret IRQ_HANDLED.

(** The handler that [ebbgpio_init] registers for each button. *)
Definition handler_of (b : button) : Z → M irqreturn :=
  match b with
  | ButtonA => ebbgpio_irq_handlerA
  | ButtonB => ebbgpio_irq_handlerB
  | ButtonC => ebbgpio_irq_handlerC
  | ButtonD => ebbgpio_irq_handlerD
  end.

End Kernel.

(** ** Reading the state *)

Definition result {A} (m : M A) (w : world) : A := (m w).1.
Definition after {A} (m : M A) (w : world) : world := (m w).2.

(** The events a computation records, oldest first (program order). *)
Definition events {A} (m : M A) (w : world) : list event :=
  let t := trace (after m w) in
  reverse (take (length t - length (trace w)) t).

Definition gpioLED (l : led) : Z :=
  match l with LED1 => gpioLED1 | LED2 => gpioLED2 end.

Definition gpioButton (b : button) : Z :=
  match b with
  | ButtonA => gpioButtonA | ButtonB => gpioButtonB
  | ButtonC => gpioButtonC | ButtonD => gpioButtonD
  end.

Definition ledOn (l : led) (g : globals) : bool :=
  match l with LED1 => led1On g | LED2 => led2On g end.

Definition numberPresses (b : button) (g : globals) : Z :=
  match b with
  | ButtonA => numberPressesA g | ButtonB => numberPressesB g
  | ButtonC => numberPressesC g | ButtonD => numberPressesD g
  end.

Definition irqNumber (b : button) (g : globals) : Z :=
  match b with
  | ButtonA => irqNumberA g | ButtonB => irqNumberB g
  | ButtonC => irqNumberC g | ButtonD => irqNumberD g
  end.

Definition argv_of (b : button) : list string :=
  match b with
  | ButtonA => argv1 | ButtonB => argv2 | ButtonC => argv3 | ButtonD => argv4
  end.

(** The LED whose flag and line the handler of a button writes, and the value
    it writes (read off the four handlers). *)
Definition led_of (b : button) : led :=
  match b with ButtonA | ButtonB => LED1 | ButtonC | ButtonD => LED2 end.

Definition value_of (b : button) : bool :=
  match b with ButtonA | ButtonC => true | ButtonB | ButtonD => false end.

(** The six lines the module uses. *)
Definition module_pins : gset Z :=
  {[ gpioLED1; gpioLED2; gpioButtonA; gpioButtonB; gpioButtonC; gpioButtonD ]}.

(** One qualifying edge on a button: the kernel calls the handler registered
    for it with the interrupt number of the button. *)
Definition press (P : platform) (b : button) : M irqreturn :=
  λ w, handler_of P b (irqNumber b (mem w)) w.

(** A run of qualifying edges, delivered one after the other. *)
Fixpoint presses (P : platform) (bs : list button) (w : world) : world :=
  match bs with
  | [] => w
  | b :: bs' => presses P bs' (after (press P b) w)
  end.

(** A board on which every pin from 0 to 127 is valid, pin [n] raises
    interrupt [160 + n], every interrupt can be registered and every helper
    launches. *)
Definition board : platform :=
  {| plat_valid := λ n, (0 <=? n) && (n <? 128);
     plat_irq := λ n, 160 + n;
     plat_irq_ok := λ _, true;
     plat_umh := λ _, 0 |}.

(** The same platform with another outcome for helper launches. *)
Definition with_umh (f : string → Z) (P : platform) : platform :=
  {| plat_valid := plat_valid P; plat_irq := plat_irq P;
     plat_irq_ok := plat_irq_ok P; plat_umh := f |}.

(** A board with only sixteen lines: pins 0 to 15 are valid, so the LED pins
    14 and 15 and the button pins 8 and 7 are valid while the button pins 23
    and 24 are not. *)
Definition small_board : platform :=
  {| plat_valid := λ n, (0 <=? n) && (n <? 16);
     plat_irq := λ n, 160 + n;
     plat_irq_ok := λ _, true;
     plat_umh := λ _, 0 |}.

(** The world at module load on a system where another driver already owns
    line 14. *)
Definition busy14 : world :=
  {| mem := statics; hw := set_owned {[ gpioLED1 ]} no_hardware; trace := [] |}.

(** A world in which button A has been pressed [UINT_MAX] times. *)
Definition saturated : world :=
  {| mem := {| irqNumberA := 168; irqNumberB := 167;
               irqNumberC := 183; irqNumberD := 184;
               numberPressesA := UINT_MAX; numberPressesB := 0;
               numberPressesC := 0; numberPressesD := 0;
               led1On := true; led2On := true |};
     hw := no_hardware; trace := [] |}.

(** The path each handler launches ([argvN[0]]) and the line it logs. *)
Definition path_of (b : button) : string := default "" (head (argv_of b)).

Definition interrupt_fmt (b : button) : string :=
  match b with
  | ButtonA => "GPIO_TEST: Interrupt! (button A state is %d)\n"
  | ButtonB => "GPIO_TEST: Interrupt! (button B state is %d)\n"
  | ButtonC => "GPIO_TEST: Interrupt! (button C state is %d)\n"
  | ButtonD => "GPIO_TEST: Interrupt! (button D state is %d)\n"
  end.

(** The line of the shutdown summary that reports a button's counter. *)
Definition summary_fmt (b : button) : string :=
  match b with
  | ButtonA => "Button A has been pressed %d times."
  | ButtonB => "Button B has been pressed %d times."
  | ButtonC => "Button C has been pressed %d times."
  | ButtonD => "Button D has been pressed %d times."
  end.

(** *** The steps of a handler invocation (section 4.3 of the spec) *)

Inductive step := StepFlip | StepWrite | StepIncrement | StepDispatch.

#[global] Instance step_eq_dec : EqDecision step.
Proof. solve_decision. Defined.

Definition step_of (e : event) : option step :=
  match e with
  | EvStoreLedOn _ _ => Some StepFlip
  | EvGpioSetValue _ _ => Some StepWrite
  | EvStoreNumberPresses _ _ => Some StepIncrement
  | EvCallUsermodehelper _ _ _ _ => Some StepDispatch
  | _ => None
  end.

Definition steps (evs : list event) : list step := omap step_of evs.

(** *** Errors of startup steps (section 7 of the spec)

    InvalidPin is a failed validity check (reported as -ENODEV) or a request
    refused with -EINVAL, LineBusy a request refused with -EBUSY, BindFailed a
    refused interrupt registration. [first_error] is the first of them in
    program order. *)

Definition step_error (e : event) : option Z :=
  match e with
  | EvGpioIsValid _ false => Some (- ENODEV)
  | EvGpioRequest _ _ r => if r <? 0 then Some r else None
  | EvRequestIrq _ _ r => if r <? 0 then Some r else None
  | _ => None
  end.

Definition first_error (evs : list event) : option Z := head (omap step_error evs).

(** *** Construction and teardown order (sections 3 and 4.5 of the spec) *)

(** The operation that destroys what a construction step built. *)
Definition undo (e : event) : option event :=
  match e with
  | EvGpioRequest p _ _ => Some (EvGpioFree p)
  | EvGpioDirectionOutput p _ _ => Some (EvGpioSetValue p false)
  | EvGpioExport p _ _ => Some (EvGpioUnexport p)
  | EvRequestIrq i _ _ => Some (EvFreeIrq i)
  | _ => None
  end.

(** Teardown in exactly the reverse of a construction sequence. *)
Definition reverse_of (construction : list event) : list event :=
  omap undo (reverse construction).

Definition is_teardown (e : event) : bool :=
  match e with
  | EvGpioSetValue _ _ | EvGpioUnexport _ | EvFreeIrq _ | EvGpioFree _ => true
  | _ => false
  end.

Definition teardown (evs : list event) : list event := List.filter is_teardown evs.

Fixpoint index_of (e : event) (evs : list event) : option nat :=
  match evs with
  | [] => None
  | x :: rest => if decide (x = e) then Some 0%nat else S <$> index_of e rest
  end.

(** [before e1 e2 evs]: both events occur and [e1] first occurs earlier. *)
Definition before (e1 e2 : event) (evs : list event) : bool :=
  match index_of e1 evs, index_of e2 evs with
  | Some i, Some j => bool_decide (i < j)%nat
  | _, _ => false
  end.

(** How often a button occurs in a run of presses. *)
Definition count_presses (b : button) (bs : list button) : Z :=
  Z.of_nat (length (List.filter (λ c, bool_decide (c = b)) bs)).

(** The same world with another set of owned lines. *)
Definition with_owned (s : gset Z) (w : world) : world :=
  {| mem := mem w; hw := set_owned s (hw w); trace := trace w |}.

(** A board without any valid pin, a board on which only pin 14 is valid,
    and a board that refuses every interrupt registration. *)
Definition no_pin_board : platform :=
  {| plat_valid := λ _, false; plat_irq := plat_irq board;
     plat_irq_ok := plat_irq_ok board; plat_umh := plat_umh board |}.

Definition one_led_board : platform :=
  {| plat_valid := λ n, bool_decide (n = gpioLED1); plat_irq := plat_irq board;
     plat_irq_ok := plat_irq_ok board; plat_umh := plat_umh board |}.

Definition no_irq_board : platform :=
  {| plat_valid := plat_valid board; plat_irq := plat_irq board;
     plat_irq_ok := λ _, false; plat_umh := plat_umh board |}.

(** The module loaded on [board], and the same after seven presses of
    button A (the unload scenario of section 8 of the spec). *)
Definition running : world := after (ebbgpio_init board) boot.

Definition seven_presses : world := presses board (replicate 7 ButtonA) running.

(** ** The effect of the kernel services on each part of the hardware

    The functions below name what one call of [gpio_request], [gpio_export],
    [request_irq] and of the services that configure a valid line does to
    the part of [hardware] it writes; they are used to state what a whole
    run of [ebbgpio_init] leaves behind. *)

Definition request_line (P : platform) (pin : Z) (own : gset Z) : gset Z :=
  if plat_valid P pin && bool_decide (pin ∉ own) then {[pin]} ∪ own else own.

Definition export_line (pin : Z) (own ex : gset Z) : gset Z :=
  if bool_decide (pin ∈ own) && bool_decide (pin ∉ ex) then {[pin]} ∪ ex else ex.

Definition set_line {A} (P : platform) (pin : Z) (v : A) (m : gmap Z A) : gmap Z A :=
  if plat_valid P pin then <[pin := v]> m else m.

Definition bind_irq (P : platform) (irq : Z) (h : button) (m : gmap Z button)
  : gmap Z button :=
  if plat_irq_ok P irq && bool_decide (m !! irq = None) then <[irq := h]> m else m.

(** The interrupt number [ebbgpio_init] stores for a button. *)
Definition irq_of (P : platform) (b : button) : Z :=
  wrap32 (plat_irq P (gpioButton b)).

(** ** Runs of the loaded module *)

(** A run of qualifying edges as one computation. *)
Definition run_presses (P : platform) (bs : list button) : M unit :=
  λ w, (tt, presses P bs w).

(** The events of a run of presses, press by press, in program order. *)
Fixpoint run_log (P : platform) (bs : list button) (w : world) : list event :=
  match bs with
  | [] => []
  | b :: bs' => events (press P b) w ++ run_log P bs' (after (press P b) w)
  end.

(** The helper launches among some events: path, argument vector,
    environment and outcome of each. *)
Definition launch_of (e : event)
  : option (string * list string * list string * Z) :=
  match e with
  | EvCallUsermodehelper path argv env res => Some (path, argv, env, res)
  | _ => None
  end.

Definition launches (evs : list event)
  : list (string * list string * list string * Z) := omap launch_of evs.

(** The last press, in a run, of a button that drives a given LED. *)
Definition last_press (l : led) (bs : list button) : option button :=
  last (filter (λ b, led_of b = l) bs).

(** The flag of each LED agrees with the level of its line. *)
Definition leds_coherent (w : world) : Prop :=
  ∀ l, level (hw w) !! gpioLED l = Some (ledOn l (mem w)).

(** The module loaded, then a run of presses, then unloaded. *)
Definition session (P : platform) (bs : list button) (w : world) : world :=
  after (ebbgpio_exit P) (presses P bs (after (ebbgpio_init P) w)).

(** A board on which every pin from 0 to 127 is valid and every helper
    launches, but on which every pin raises the same interrupt 7. *)
Definition shared_irq_board : platform :=
  {| plat_valid := plat_valid board; plat_irq := λ _, 7;
     plat_irq_ok := plat_irq_ok board; plat_umh := plat_umh board |}.

(** ** Module exit cut in two

    [ebbgpio_exit] up to and including the two writes that switch the LEDs
    off, and the rest of it. Until the rest runs, the four handlers are still
    bound, so an interrupt can be served between the two parts. *)

Definition ebbgpio_exit_leds_off (P : platform) : M unit :=
  sD ← gpio_get_value gpioButtonD;
  printk "GPIO_TEST: The button state is currently: %d\n" [sD] ;;
  pD ← read numberPressesD;
  printk "GPIO_TEST: The button was pressed %d times\n" [pD] ;;
  gpio_set_value P gpioLED1 false ;;
  gpio_set_value P gpioLED2 false.

Definition ebbgpio_exit_release (P : platform) : M unit :=
  gpio_unexport gpioLED1 ;;
  gpio_unexport gpioLED2 ;;
  nA ← read irqNumberA;
  free_irq nA ;;
  gpio_unexport gpioButtonA ;;
  nB ← read irqNumberB;
  free_irq nB ;;
  gpio_unexport gpioButtonB ;;
  nC ← read irqNumberC;
  free_irq nC ;;
  gpio_unexport gpioButtonC ;;
  nD ← read irqNumberD;
  free_irq nD ;;
  gpio_unexport gpioButtonD ;;
  gpio_free gpioLED1 ;;
  gpio_free gpioLED2 ;;
  gpio_free gpioButtonA ;;
  gpio_free gpioButtonB ;;
  gpio_free gpioButtonC ;;
  gpio_free gpioButtonD ;;
  cA ← read numberPressesA;
  printk "Button A has been pressed %d times." [cA] ;;
  cB ← read numberPressesB;
  printk "Button B has been pressed %d times." [cB] ;;
  cC ← read numberPressesC;
  printk "Button C has been pressed %d times." [cC] ;;
  cD ← read numberPressesD;
  printk "Button D has been pressed %d times." [cD] ;;
  printk "GPIO_TEST: Goodbye from the LKM!\n" [].

(** Module exit during which one interrupt of a button is served right
    after the LEDs were switched off. *)
Definition ebbgpio_exit_interrupted (P : platform) (b : button) : M unit :=
  ebbgpio_exit_leds_off P ;; press P b ;; ebbgpio_exit_release P.

(** The loaded module after 2^31 presses of button A, and with all four
    counters at [UINT_MAX]. *)
Definition half_range : world :=
  {| mem := {| irqNumberA := 168; irqNumberB := 167;
               irqNumberC := 183; irqNumberD := 184;
               numberPressesA := 2147483648; numberPressesB := 0;
               numberPressesC := 0; numberPressesD := 0;
               led1On := true; led2On := true |};
     hw := hw running; trace := [] |}.

Definition all_saturated : world :=
  {| mem := {| irqNumberA := 168; irqNumberB := 167;
               irqNumberC := 183; irqNumberD := 184;
               numberPressesA := UINT_MAX; numberPressesB := UINT_MAX;
               numberPressesC := UINT_MAX; numberPressesD := UINT_MAX;
               led1On := true; led2On := true |};
     hw := hw running; trace := [] |}.

(** ** Proof tools *)

(** Unfold the embedding down to records over the initial world. *)
Ltac run :=
  cbv [result after press handler_of ebbgpio_init ebbgpio_exit
    ebbgpio_irq_handlerA ebbgpio_irq_handlerB ebbgpio_irq_handlerC
    ebbgpio_irq_handlerD
    printk gpio_is_valid gpio_request gpio_direction_output
    gpio_direction_input gpio_set_debounce gpio_export gpio_unexport
    gpio_get_value gpio_set_value gpio_free gpio_to_irq request_irq free_irq
    call_usermodehelper
    store_led1On store_led2On store_numberPressesA store_numberPressesB
    store_numberPressesC store_numberPressesD store_irqNumberA
    store_irqNumberB store_irqNumberC store_irqNumberD
    read emit get_mem put_mem get_hw put_hw mbind mret M_bind M_ret
    set_owned set_exported set_dir set_debounce set_level set_irqs
    negb fst snd mem hw trace owned exported dir debounce level irqs
    irqNumberA irqNumberB irqNumberC irqNumberD
    numberPressesA numberPressesB numberPressesC numberPressesD
    led1On led2On] in *.

(** Run [ebbgpio_init] through its two validity checks only, given what the
    checks return. *)
Ltac run_checks H1 H2 :=
  cbv [result after events ebbgpio_init mbind M_bind mret M_ret gpio_is_valid
       printk emit fst snd];
  rewrite ?H1, ?H2; cbv [negb].

(** The events in front of [t0] in a trace [T] that extends it. *)
Ltac prefix_of T t0 :=
  lazymatch T with
  | t0 => constr:(@nil event)
  | ?e :: ?T' => let l := prefix_of T' t0 in constr:(e :: l)
  end.

(** ** Traces *)

Lemma take_new (l t : list event) :
  take (length (l ++ t) - length t) (l ++ t) = l.
Proof.
  rewrite length_app.
  replace (length l + length t - length t)%nat with (length l) by lia.
  apply take_app_length.
Qed.

Lemma events_intro {A} (m : M A) (w : world) (l : list event) :
  trace (after m w) = l ++ trace w → events m w = reverse l.
Proof. intros E. unfold events. by rewrite E, take_new. Qed.

Lemma first_error_None evs e :
  first_error evs = None → e ∈ evs → step_error e = None.
Proof.
  unfold first_error. induction evs as [|x evs IH]; intros Hn Hin.
  - by apply elem_of_nil in Hin.
  - cbn in Hn. destruct (step_error x) eqn:Ex; [discriminate|].
    apply elem_of_cons in Hin as [->|Hin]; auto.
Qed.

(** ** The interrupt handlers *)

Lemma press_result P b w : result (press P b) w = IRQ_HANDLED.
Proof. by destruct b. Qed.

Lemma press_ledOn P b l w :
  ledOn l (mem (after (press P b) w)) =
  if decide (l = led_of b) then value_of b else ledOn l (mem w).
Proof. by destruct b, l. Qed.

Lemma press_numberPresses P b c w :
  numberPresses c (mem (after (press P b) w)) =
  if decide (c = b) then wrap32 (numberPresses b (mem w) + 1)
  else numberPresses c (mem w).
Proof. by destruct b, c. Qed.

Lemma press_irqNumber P b c w :
  irqNumber c (mem (after (press P b) w)) = irqNumber c (mem w).
Proof. by destruct b, c. Qed.

Lemma press_hw P b w :
  hw (after (press P b) w) =
  set_level (if plat_valid P (gpioLED (led_of b))
             then <[gpioLED (led_of b) := value_of b]> (level (hw w))
             else level (hw w)) (hw w).
Proof. by destruct b. Qed.

Lemma press_events P b w :
  events (press P b) w =
  [ EvStoreLedOn (led_of b) (value_of b);
    EvGpioSetValue (gpioLED (led_of b)) (value_of b);
    EvGpioGetValue (gpioButton b)
      (Z.b2z (default false (level (hw (after (press P b) w)) !! gpioButton b)));
    EvPrintk (interrupt_fmt b)
      [as_int (Z.b2z (default false
                 (level (hw (after (press P b) w)) !! gpioButton b)))];
    EvCallUsermodehelper (path_of b) (argv_of b) envp (plat_umh P (path_of b));
    EvStoreNumberPresses b (wrap32 (numberPresses b (mem w) + 1)) ].
Proof.
  match goal with |- _ = ?l => apply (events_intro _ _ (reverse l)) end.
  by destruct b.
Qed.

(** Along a run of presses that does not exhaust the 32 bits of a counter,
    the counter of a button grows by the number of presses of that button. *)
Lemma presses_count P bs : ∀ c w,
  0 ≤ numberPresses c (mem w) →
  numberPresses c (mem w) + count_presses c bs ≤ UINT_MAX →
  numberPresses c (mem (presses P bs w)) =
  numberPresses c (mem w) + count_presses c bs.
Proof.
  unfold count_presses, UINT_MAX.
  induction bs as [|b bs IH]; intros c w H0 Hmax; cbn [presses List.filter] in *.
  - cbn. lia.
  - pose proof (press_numberPresses P b c w) as Hs.
    destruct (decide (c = b)) as [->|Hne].
    + rewrite bool_decide_eq_true_2 in * by done. cbn [length] in *.
      unfold wrap32 in Hs. rewrite Z.mod_small in Hs by lia.
      rewrite IH; rewrite Hs; lia.
    + rewrite bool_decide_eq_false_2 in * by done.
      rewrite IH; rewrite Hs; lia.
Qed.

(** ** Module exit *)

Lemma exit_mem P w : mem (after (ebbgpio_exit P) w) = mem w.
Proof. reflexivity. Qed.

Lemma exit_level P w :
  level (hw (after (ebbgpio_exit P) w)) =
  let l1 := if plat_valid P gpioLED1 then <[gpioLED1 := false]> (level (hw w))
            else level (hw w) in
  if plat_valid P gpioLED2 then <[gpioLED2 := false]> l1 else l1.
Proof. reflexivity. Qed.

Lemma exit_owned P w :
  owned (hw (after (ebbgpio_exit P) w)) = owned (hw w) ∖ module_pins.
Proof.
  transitivity (owned (hw w) ∖ {[gpioLED1]} ∖ {[gpioLED2]} ∖ {[gpioButtonA]}
                ∖ {[gpioButtonB]} ∖ {[gpioButtonC]} ∖ {[gpioButtonD]}).
  - reflexivity.
  - apply set_eq. intros x. unfold module_pins.
    rewrite !elem_of_difference, !elem_of_union, !elem_of_singleton. tauto.
Qed.

Lemma exit_exported P w :
  exported (hw (after (ebbgpio_exit P) w)) = exported (hw w) ∖ module_pins.
Proof.
  transitivity (exported (hw w) ∖ {[gpioLED1]} ∖ {[gpioLED2]} ∖ {[gpioButtonA]}
                ∖ {[gpioButtonB]} ∖ {[gpioButtonC]} ∖ {[gpioButtonD]}
                ∖ {[gpioLED1]} ∖ {[gpioLED2]} ∖ {[gpioButtonA]}
                ∖ {[gpioButtonB]} ∖ {[gpioButtonC]} ∖ {[gpioButtonD]}).
  - reflexivity.
  - apply set_eq. intros x. unfold module_pins.
    rewrite !elem_of_difference, !elem_of_union, !elem_of_singleton. tauto.
Qed.

Lemma exit_irqs P w :
  irqs (hw (after (ebbgpio_exit P) w)) =
  delete (irqNumberD (mem w)) (delete (irqNumberC (mem w))
    (delete (irqNumberB (mem w)) (delete (irqNumberA (mem w)) (irqs (hw w))))).
Proof. reflexivity. Qed.

Lemma exit_events P w :
  events (ebbgpio_exit P) w =
  [ EvGpioGetValue gpioButtonD (Z.b2z (default false (level (hw w) !! gpioButtonD)));
    EvPrintk "GPIO_TEST: The button state is currently: %d\n"
      [as_int (Z.b2z (default false (level (hw w) !! gpioButtonD)))];
    EvPrintk "GPIO_TEST: The button was pressed %d times\n"
      [as_int (numberPressesD (mem w))];
    EvGpioSetValue gpioLED1 false; EvGpioSetValue gpioLED2 false;
    EvGpioUnexport gpioLED1; EvGpioUnexport gpioLED2;
    EvFreeIrq (irqNumberA (mem w)); EvGpioUnexport gpioButtonA;
    EvFreeIrq (irqNumberB (mem w)); EvGpioUnexport gpioButtonB;
    EvFreeIrq (irqNumberC (mem w)); EvGpioUnexport gpioButtonC;
    EvFreeIrq (irqNumberD (mem w)); EvGpioUnexport gpioButtonD;
    EvGpioFree gpioLED1; EvGpioFree gpioLED2;
    EvGpioFree gpioButtonA; EvGpioFree gpioButtonB;
    EvGpioFree gpioButtonC; EvGpioFree gpioButtonD;
    EvPrintk "Button A has been pressed %d times." [as_int (numberPressesA (mem w))];
    EvPrintk "Button B has been pressed %d times." [as_int (numberPressesB (mem w))];
    EvPrintk "Button C has been pressed %d times." [as_int (numberPressesC (mem w))];
    EvPrintk "Button D has been pressed %d times." [as_int (numberPressesD (mem w))];
    EvPrintk "GPIO_TEST: Goodbye from the LKM!\n" [] ].
Proof.
  match goal with |- _ = ?l => apply (events_intro _ _ (reverse l)) end.
  reflexivity.
Qed.

(** ** Module init *)

Lemma init_invalid_led1 P w :
  plat_valid P gpioLED1 = false →
  ebbgpio_init P w =
  (- ENODEV,
   {| mem := mem w; hw := hw w;
      trace := [ EvPrintk "GPIO_TEST: invalid LED 1 GPIO\n" [];
                 EvGpioIsValid gpioLED1 false;
                 EvPrintk "GPIO_TEST: Initializing the GPIO_TEST LKM\n" [] ]
               ++ trace w |}).
Proof. intros H. run_checks H H. reflexivity. Qed.

Lemma init_invalid_led2 P w :
  plat_valid P gpioLED1 = true → plat_valid P gpioLED2 = false →
  ebbgpio_init P w =
  (- ENODEV,
   {| mem := mem w; hw := hw w;
      trace := [ EvPrintk "GPIO_TEST: invalid LED 2 GPIO\n" [];
                 EvGpioIsValid gpioLED2 false;
                 EvGpioIsValid gpioLED1 true;
                 EvPrintk "GPIO_TEST: Initializing the GPIO_TEST LKM\n" [] ]
               ++ trace w |}).
Proof. intros H1 H2. run_checks H1 H2. reflexivity. Qed.

Lemma init_result_valid P w :
  plat_valid P gpioLED1 = true → plat_valid P gpioLED2 = true →
  result (ebbgpio_init P) w =
  result (request_irq P (wrap32 (plat_irq P gpioButtonA)) ButtonA) w.
Proof.
  intros H1 H2. destruct w as [g h t]. run_checks H1 H2. run. reflexivity.
Qed.

Lemma init_mem_valid P w :
  plat_valid P gpioLED1 = true → plat_valid P gpioLED2 = true →
  mem (after (ebbgpio_init P) w) =
  {| irqNumberA := wrap32 (plat_irq P gpioButtonA);
     irqNumberB := wrap32 (plat_irq P gpioButtonB);
     irqNumberC := wrap32 (plat_irq P gpioButtonC);
     irqNumberD := wrap32 (plat_irq P gpioButtonD);
     numberPressesA := numberPressesA (mem w);
     numberPressesB := numberPressesB (mem w);
     numberPressesC := numberPressesC (mem w);
     numberPressesD := numberPressesD (mem w);
     led1On := true; led2On := true |}.
Proof.
  intros H1 H2. destruct w as [g h t]. run_checks H1 H2. run. reflexivity.
Qed.

Lemma init_level_valid P w :
  plat_valid P gpioLED1 = true → plat_valid P gpioLED2 = true →
  level (hw (after (ebbgpio_init P) w)) =
  <[gpioLED2 := true]> (<[gpioLED1 := true]> (level (hw w))).
Proof.
  intros H1 H2. destruct w as [g h t]. run_checks H1 H2. run.
  rewrite H1, H2. reflexivity.
Qed.

Lemma init_events_irqA P w :
  plat_valid P gpioLED1 = true → plat_valid P gpioLED2 = true →
  EvRequestIrq (wrap32 (plat_irq P gpioButtonA)) ButtonA
    (result (ebbgpio_init P) w)
  ∈ events (ebbgpio_init P) w.
Proof.
  intros H1 H2. destruct w as [g h t]. run_checks H1 H2. run.
  match goal with |- _ ∈ reverse (take _ ?T) =>
    let l := prefix_of T t in
    change T with (l ++ t); set (L := l)
  end.
  rewrite take_new. apply elem_of_reverse. subst L.
  do 4 apply list_elem_of_further. apply list_elem_of_here.
Qed.

Lemma request_irq_result_cases P irq b w :
  result (request_irq P irq b) w = 0 ∨ result (request_irq P irq b) w < 0.
Proof.
  cbv [result request_irq mbind M_bind mret M_ret get_hw put_hw emit fst
       EBUSY EINVAL].
  destruct (plat_irq_ok P irq), (bool_decide _); cbn; lia.
Qed.

Lemma request_irq_result_owned P irq b s w :
  result (request_irq P irq b) (with_owned s w) = result (request_irq P irq b) w.
Proof. reflexivity. Qed.

Lemma init_no_error_result P w :
  first_error (events (ebbgpio_init P) w) = None → result (ebbgpio_init P) w = 0.
Proof.
  intros Hn.
  destruct (plat_valid P gpioLED1) eqn:H1.
  2: { erewrite events_intro in Hn; [|unfold after; by rewrite init_invalid_led1].
       discriminate. }
  destruct (plat_valid P gpioLED2) eqn:H2.
  2: { erewrite events_intro in Hn; [|unfold after; by rewrite init_invalid_led2].
       discriminate. }
  pose proof (first_error_None _ _ Hn (init_events_irqA P w H1 H2)) as E.
  cbn in E. rewrite init_result_valid in * by done.
  destruct (request_irq_result_cases P (wrap32 (plat_irq P gpioButtonA)) ButtonA w)
    as [?|Hneg]; [done|].
  apply Z.ltb_lt in Hneg. by rewrite Hneg in E.
Qed.

Lemma init_result_owned P s w :
  result (ebbgpio_init P) (with_owned s w) = result (ebbgpio_init P) w.
Proof.
  destruct (plat_valid P gpioLED1) eqn:H1.
  2: { unfold result. by rewrite !init_invalid_led1. }
  destruct (plat_valid P gpioLED2) eqn:H2.
  2: { unfold result. by rewrite !init_invalid_led2. }
  rewrite !init_result_valid by done. apply request_irq_result_owned.
Qed.

(** ** What [%d] shows *)

Lemma as_int_small z : - 2 ^ 31 ≤ z < 2 ^ 31 → as_int z = z.
Proof. intros Hz. unfold as_int. rewrite Z.mod_small; lia. Qed.

Lemma as_int_large z : 2 ^ 31 ≤ z < 2 ^ 32 → as_int z = z - 2 ^ 32.
Proof.
  intros Hz. unfold as_int.
  replace (z + 2 ^ 31) with ((z - 2 ^ 31) + 1 * 2 ^ 32) by lia.
  rewrite Z_mod_plus_full, Z.mod_small; lia.
Qed.

Lemma as_int_b2z (x : bool) : as_int (Z.b2z x) = Z.b2z x.
Proof. by destruct x. Qed.

(** The two parts of module exit, run one after the other, are module exit. *)
Lemma exit_split P w :
  (ebbgpio_exit_leds_off P ;; ebbgpio_exit_release P) w = ebbgpio_exit P w.
Proof.
  destruct w as [g h t]. cbv [ebbgpio_exit_leds_off ebbgpio_exit_release].
  run. reflexivity.
Qed.

(** ** Properties of the module *)

(** C1 (amended): a qualifying edge on button i does not toggle a LED of
    its own. The handler of A sets LED1 on, that of B sets LED1 off, that of C
    sets LED2 on and that of D sets LED2 off, whatever the LED was before:
    the flag of that LED takes the value, and so does its line when the pin
    is valid. The handler adds one to counter i, modulo 2^32. The counters of
    the other buttons and the flag and line of the other LED are unchanged. *)
Theorem press_sets_led_and_counts P b w :
  let w' := after (press P b) w in
  ledOn (led_of b) (mem w') = value_of b ∧
  (plat_valid P (gpioLED (led_of b)) = true →
     level (hw w') !! gpioLED (led_of b) = Some (value_of b)) ∧
  numberPresses b (mem w') = wrap32 (numberPresses b (mem w) + 1) ∧
  (∀ c, c ≠ b → numberPresses c (mem w') = numberPresses c (mem w)) ∧
  (∀ l, l ≠ led_of b →
     ledOn l (mem w') = ledOn l (mem w) ∧
     level (hw w') !! gpioLED l = level (hw w) !! gpioLED l).
Proof.
  intros w'. subst w'.
  split; [|split; [|split; [|split]]].
  - rewrite press_ledOn. by rewrite decide_True.
  - intros Hv. rewrite press_hw, Hv. apply lookup_insert_eq.
  - rewrite press_numberPresses. by rewrite decide_True.
  - intros c Hc. rewrite press_numberPresses. by rewrite decide_False.
  - intros l Hl. split.
    + rewrite press_ledOn. by rewrite decide_False.
    + rewrite press_hw. cbn [level set_level].
      destruct (plat_valid P _); [|done].
      apply lookup_insert_ne. by destruct b, l.
Qed.

Lemma press_sets_led_and_counts_witness :
  ledOn LED1 (mem (after (press board ButtonA) boot)) = true ∧
  level (hw (after (press board ButtonA) boot)) !! gpioLED1 = Some true ∧
  numberPresses ButtonA (mem (after (press board ButtonA) boot)) = 1 ∧
  numberPresses ButtonB (mem (after (press board ButtonA) boot)) = 0 ∧
  ledOn LED2 (mem (after (press board ButtonA) boot)) = false.
Proof.
  destruct (press_sets_led_and_counts board ButtonA boot)
    as (H1 & H2 & H3 & H4 & H5).
  refine (conj H1 (conj (H2 eq_refl) (conj H3
            (conj (H4 ButtonB _) (proj1 (H5 LED2 _))))));
    discriminate.
Defined.

(** C1, as stated, fails: with LED1 on (as it is right after init), an edge
    on button A leaves LED1 on instead of inverting it. *)
Lemma press_does_not_toggle :
  ledOn (led_of ButtonA) (mem (after (press board ButtonA) running))
  ≠ negb (ledOn (led_of ButtonA) (mem running)).
Proof. vm_compute. discriminate. Qed.

(** C2 (amended): immediately after a successful init of the freshly loaded
    module, every press counter is 0 and both LEDs are on, in the flags and in
    the value driven on the two output lines. *)
Theorem init_success_state P w :
  mem w = statics → result (ebbgpio_init P) w = 0 →
  let w' := after (ebbgpio_init P) w in
  (∀ b, numberPresses b (mem w') = 0) ∧
  (∀ l, ledOn l (mem w') = true) ∧
  (∀ l, level (hw w') !! gpioLED l = Some true).
Proof.
  intros Hm Hr w'. subst w'.
  destruct (plat_valid P gpioLED1) eqn:H1.
  2: { unfold result in Hr. by rewrite init_invalid_led1 in Hr. }
  destruct (plat_valid P gpioLED2) eqn:H2.
  2: { unfold result in Hr. by rewrite init_invalid_led2 in Hr. }
  rewrite init_mem_valid, init_level_valid, Hm by done.
  split; [by intros []|]. split; [by intros []|].
  intros []; cbn [gpioLED].
  - rewrite lookup_insert_ne by done. apply lookup_insert_eq.
  - apply lookup_insert_eq.
Qed.

Lemma init_success_state_witness :
  numberPresses ButtonA (mem (after (ebbgpio_init board) boot)) = 0 ∧
  ledOn LED1 (mem (after (ebbgpio_init board) boot)) = true ∧
  level (hw (after (ebbgpio_init board) boot)) !! gpioLED LED1 = Some true.
Proof.
  destruct (init_success_state board boot eq_refl) as (H1 & H2 & H3).
  - by vm_compute.
  - exact (conj (H1 ButtonA) (conj (H2 LED1) (H3 LED1))).
Defined.

(** C2, as stated, fails: init on [board] succeeds and leaves both LED flags
    set and both LED lines driven high. *)
Lemma init_leaves_leds_on :
  result (ebbgpio_init board) boot = 0 ∧
  ledOn LED1 (mem running) ≠ false ∧ ledOn LED2 (mem running) ≠ false ∧
  level (hw running) !! gpioLED1 ≠ Some false ∧
  level (hw running) !! gpioLED2 ≠ Some false.
Proof. vm_compute. by repeat split. Qed.

(** C3 (amended): module exit tears down in declaration order, not in
    reverse: it drives LED1 then LED2 low, unexports LED1 then LED2, then for
    the buttons A, B, C, D in this order frees the interrupt and unexports
    the line, and at last frees the six lines in the order LED1, LED2, A, B,
    C, D. *)
Theorem exit_teardown_order P w :
  teardown (events (ebbgpio_exit P) w) =
  [ EvGpioSetValue gpioLED1 false; EvGpioSetValue gpioLED2 false;
    EvGpioUnexport gpioLED1; EvGpioUnexport gpioLED2;
    EvFreeIrq (irqNumberA (mem w)); EvGpioUnexport gpioButtonA;
    EvFreeIrq (irqNumberB (mem w)); EvGpioUnexport gpioButtonB;
    EvFreeIrq (irqNumberC (mem w)); EvGpioUnexport gpioButtonC;
    EvFreeIrq (irqNumberD (mem w)); EvGpioUnexport gpioButtonD;
    EvGpioFree gpioLED1; EvGpioFree gpioLED2;
    EvGpioFree gpioButtonA; EvGpioFree gpioButtonB;
    EvGpioFree gpioButtonC; EvGpioFree gpioButtonD ].
Proof. by rewrite exit_events. Qed.

(** C3, as stated, fails: the teardown of exit is not the reverse of the
    construction done by init; the interrupt of A is freed before that of D,
    as they were requested, and the LEDs are driven low before any interrupt
    is freed. *)
Lemma exit_not_reverse_of_init :
  teardown (events (ebbgpio_exit board) running)
  ≠ reverse_of (events (ebbgpio_init board) boot) ∧
  before (EvRequestIrq (irqNumberA (mem running)) ButtonA 0)
         (EvRequestIrq (irqNumberD (mem running)) ButtonD 0)
         (events (ebbgpio_init board) boot) = true ∧
  before (EvFreeIrq (irqNumberA (mem running)))
         (EvFreeIrq (irqNumberD (mem running)))
         (events (ebbgpio_exit board) running) = true ∧
  before (EvGpioSetValue gpioLED1 false)
         (EvFreeIrq (irqNumberA (mem running)))
         (events (ebbgpio_exit board) running) = true.
Proof. vm_compute. by repeat split. Qed.

(** C4 (amended): init returns -ENODEV, as the first error and with the
    hardware and the statics untouched, when the pin of LED1 is invalid, or
    when that of LED2 is; otherwise, if registering the interrupt of button A
    fails, init returns that error; if no step fails, init returns 0. The
    results of the line requests are not looked at: which lines are already
    owned never changes the returned value. *)
Theorem init_reports P w :
  (plat_valid P gpioLED1 = false →
     result (ebbgpio_init P) w = - ENODEV ∧
     first_error (events (ebbgpio_init P) w) = Some (- ENODEV) ∧
     hw (after (ebbgpio_init P) w) = hw w ∧
     mem (after (ebbgpio_init P) w) = mem w) ∧
  (plat_valid P gpioLED1 = true → plat_valid P gpioLED2 = false →
     result (ebbgpio_init P) w = - ENODEV ∧
     first_error (events (ebbgpio_init P) w) = Some (- ENODEV) ∧
     hw (after (ebbgpio_init P) w) = hw w ∧
     mem (after (ebbgpio_init P) w) = mem w) ∧
  (plat_valid P gpioLED1 = true → plat_valid P gpioLED2 = true →
     result (request_irq P (wrap32 (plat_irq P gpioButtonA)) ButtonA) w ≠ 0 →
     result (ebbgpio_init P) w =
     result (request_irq P (wrap32 (plat_irq P gpioButtonA)) ButtonA) w) ∧
  (first_error (events (ebbgpio_init P) w) = None →
     result (ebbgpio_init P) w = 0) ∧
  (∀ s, result (ebbgpio_init P) (with_owned s w) = result (ebbgpio_init P) w).
Proof.
  split; [|split; [|split; [|split]]].
  - intros H1.
    erewrite events_intro; [|unfold after; by rewrite init_invalid_led1].
    unfold result, after. by rewrite init_invalid_led1.
  - intros H1 H2.
    erewrite events_intro; [|unfold after; by rewrite init_invalid_led2].
    unfold result, after. by rewrite init_invalid_led2.
  - intros H1 H2 _. by apply init_result_valid.
  - apply init_no_error_result.
  - intros s. apply init_result_owned.
Qed.

Lemma init_reports_witness :
  result (ebbgpio_init no_pin_board) boot = - ENODEV ∧
  result (ebbgpio_init one_led_board) boot = - ENODEV ∧
  result (ebbgpio_init no_irq_board) boot = - EINVAL ∧
  result (ebbgpio_init board) boot = 0.
Proof.
  split; [|split; [|split]].
  - exact (proj1 (proj1 (init_reports no_pin_board boot) eq_refl)).
  - exact (proj1 (proj1 (proj2 (init_reports one_led_board boot)) eq_refl eq_refl)).
  - refine (proj1 (proj2 (proj2 (init_reports no_irq_board boot)))
              eq_refl eq_refl _).
    by vm_compute.
  - apply (proj1 (proj2 (proj2 (proj2 (init_reports board boot))))).
    by vm_compute.
Defined.

(** C4, as stated, fails: when line 14 is already owned, the request for
    LED1 fails with -EBUSY, which is the first error of the call, and init
    still returns 0. *)
Lemma init_ignores_line_busy :
  first_error (events (ebbgpio_init board) busy14) = Some (- EBUSY) ∧
  result (ebbgpio_init board) busy14 = 0.
Proof. by vm_compute. Qed.

(** C5 (amended): within one handler invocation the steps occur in the
    order: store the LED flag, write the value to the output line, dispatch
    the notification task, and only then increment the press counter. *)
Theorem handler_step_order P b w :
  steps (events (press P b) w) =
  [StepFlip; StepWrite; StepDispatch; StepIncrement].
Proof. by rewrite press_events. Qed.

(** C5, as stated, fails: the handler of A does not increment before it
    dispatches. *)
Lemma handler_dispatches_before_increment :
  steps (events (press board ButtonA) running)
  ≠ [StepFlip; StepWrite; StepIncrement; StepDispatch].
Proof. vm_compute. discriminate. Qed.

(** C6 (code at the failing input): on a board whose valid pins are 0 to 15
    the pin of button C is invalid, yet init never checks it, requests the
    line (the request is refused with -EINVAL), registers the interrupt of
    button C and returns 0. *)
Theorem init_skips_button_validation :
  plat_valid small_board gpioButtonC = false ∧
  result (ebbgpio_init small_board) boot = 0 ∧
  EvGpioRequest gpioButtonC "sysfs" (- EINVAL)
    ∈ events (ebbgpio_init small_board) boot ∧
  (∀ r, EvGpioIsValid gpioButtonC r ∉ events (ebbgpio_init small_board) boot) ∧
  irqs (hw (after (ebbgpio_init small_board) boot)) !! (160 + gpioButtonC)
  = Some ButtonC.
Proof.
  split; [done|]. split; [by vm_compute|].
  split; [compute_done|].
  split; [|by vm_compute].
  intros r. destruct r; compute_done.
Qed.

(** C7 (amended): after a module exit that no interrupt cuts into, each LED
    line that could be acquired (its pin is valid) is at level off; the six
    lines of the module are no longer owned, so a line table that held only
    lines of the module is empty; the statics are unchanged and the log
    written by exit has, for each of the four press counters whose final
    value is below 2^31, the summary line showing that value. *)
Theorem exit_forces_off_and_releases P w :
  let w' := after (ebbgpio_exit P) w in
  (∀ l, plat_valid P (gpioLED l) = true →
        level (hw w') !! gpioLED l = Some false) ∧
  owned (hw w') = owned (hw w) ∖ module_pins ∧
  (owned (hw w) ⊆ module_pins → owned (hw w') = ∅) ∧
  mem w' = mem w ∧
  (∀ b, 0 ≤ numberPresses b (mem w') < 2 ^ 31 →
        EvPrintk (summary_fmt b) [numberPresses b (mem w')]
        ∈ events (ebbgpio_exit P) w).
Proof.
  intros w'. subst w'.
  assert (Hlog : ∀ b, EvPrintk (summary_fmt b)
                        [as_int (numberPresses b (mem (after (ebbgpio_exit P) w)))]
                      ∈ events (ebbgpio_exit P) w).
  { intros b. rewrite exit_mem, exit_events.
    apply list_elem_of_In. destruct b; cbn; tauto. }
  split; [|split; [|split; [|split]]].
  - intros l Hl. rewrite exit_level. cbn zeta. destruct l; cbn [gpioLED] in *.
    + rewrite Hl. destruct (plat_valid P gpioLED2).
      * rewrite lookup_insert_ne by done. apply lookup_insert_eq.
      * apply lookup_insert_eq.
    + rewrite Hl. apply lookup_insert_eq.
  - apply exit_owned.
  - intros Hsub. rewrite exit_owned. apply set_eq. intros x.
    rewrite elem_of_difference, elem_of_empty. split; [|done].
    intros [Hx Hn]. apply Hn, Hsub, Hx.
  - apply exit_mem.
  - intros b Hb. specialize (Hlog b). rewrite as_int_small in Hlog by lia. done.
Qed.

Lemma exit_forces_off_and_releases_witness :
  level (hw (after (ebbgpio_exit board) seven_presses)) !! gpioLED1 = Some false ∧
  owned (hw (after (ebbgpio_exit board) seven_presses)) = ∅ ∧
  EvPrintk "Button A has been pressed %d times." [7]
    ∈ events (ebbgpio_exit board) seven_presses.
Proof.
  destruct (exit_forces_off_and_releases board seven_presses)
    as (H1 & _ & H3 & _ & H6).
  split; [exact (H1 LED1 eq_refl)|]. split; [apply H3; compute_done|].
  apply (H6 ButtonA). clear. vm_compute.
  split; [intros Hc; discriminate Hc|reflexivity].
Defined.

(** C7, as stated, fails twice. While exit runs, the handlers stay bound
    until after the LEDs were switched off: an edge on button A served at
    that point switches LED1 on again, and it is still on when exit is
    done. And a counter that has reached 2^31 is not reported by the log:
    the summary line shows a negative number in its place. *)
Lemma exit_leaves_led_on_or_misreports :
  irqs (hw (after (ebbgpio_exit_leds_off board) running))
    !! irqNumber ButtonA (mem running) = Some ButtonA ∧
  level (hw (after (ebbgpio_exit_interrupted board ButtonA) running)) !! gpioLED1
    = Some true ∧
  owned (hw (after (ebbgpio_exit_interrupted board ButtonA) running)) = ∅ ∧
  numberPresses ButtonA (mem (after (ebbgpio_exit board) half_range)) = 2147483648 ∧
  (EvPrintk (summary_fmt ButtonA) [2147483648]
     ∉ events (ebbgpio_exit board) half_range) ∧
  EvPrintk (summary_fmt ButtonA) [-2147483648]
    ∈ events (ebbgpio_exit board) half_range.
Proof.
  split; [by vm_compute|]. split; [by vm_compute|]. split; [by vm_compute|].
  split; [by vm_compute|]. split; compute_done.
Qed.

(** C8 (amended): a handler invocation on button b sets counter b to the
    old value plus one modulo 2^32 and leaves the other counters alone, in
    every state. So while a counter is below UINT_MAX no invocation decreases
    it and each qualifying edge on its button increases it by exactly 1; at
    UINT_MAX the next edge wraps it to 0. *)
Theorem counter_step P b w :
  numberPresses b (mem (after (press P b) w))
  = wrap32 (numberPresses b (mem w) + 1) ∧
  (∀ c, c ≠ b →
        numberPresses c (mem (after (press P b) w)) = numberPresses c (mem w)) ∧
  (∀ c, c ≠ b ∨ 0 ≤ numberPresses c (mem w) < UINT_MAX →
        numberPresses c (mem w) ≤ numberPresses c (mem (after (press P b) w))) ∧
  (0 ≤ numberPresses b (mem w) < UINT_MAX →
     numberPresses b (mem (after (press P b) w)) = numberPresses b (mem w) + 1) ∧
  (numberPresses b (mem w) = UINT_MAX →
     numberPresses b (mem (after (press P b) w)) = 0).
Proof.
  assert (Hb : numberPresses b (mem (after (press P b) w))
               = wrap32 (numberPresses b (mem w) + 1)).
  { rewrite press_numberPresses. by rewrite decide_True. }
  assert (Hc : ∀ c, c ≠ b →
            numberPresses c (mem (after (press P b) w)) = numberPresses c (mem w)).
  { intros c Hne. rewrite press_numberPresses. by rewrite decide_False. }
  assert (Hs : 0 ≤ numberPresses b (mem w) < UINT_MAX →
            numberPresses b (mem (after (press P b) w))
            = numberPresses b (mem w) + 1).
  { intros Hr. rewrite Hb. unfold wrap32, UINT_MAX in *.
    rewrite Z.mod_small; lia. }
  split; [exact Hb|]. split; [exact Hc|]. split; [|split; [exact Hs|]].
  - intros c Hr. destruct (decide (c = b)) as [->|Hne].
    + destruct Hr as [Hne|Hr]; [done|]. rewrite Hs by done. lia.
    + rewrite Hc by done. lia.
  - intros Hm. rewrite Hb, Hm. done.
Qed.

Lemma counter_step_witness :
  numberPresses ButtonA (mem (after (press board ButtonA) boot)) = 1 ∧
  numberPresses ButtonA (mem (after (press board ButtonA) all_saturated)) = 0 ∧
  numberPresses ButtonB (mem (after (press board ButtonA) all_saturated))
  = UINT_MAX ∧
  numberPresses ButtonC (mem boot)
  ≤ numberPresses ButtonC (mem (after (press board ButtonA) boot)).
Proof.
  destruct (counter_step board ButtonA boot) as (_ & _ & Hle & Hs & _).
  destruct (counter_step board ButtonA all_saturated) as (_ & Hc & _ & _ & Hw).
  split; [apply Hs; by vm_compute|].
  split; [apply Hw; reflexivity|].
  split; [apply (Hc ButtonB); discriminate|].
  apply (Hle ButtonC). left. discriminate.
Defined.

(** C8, as stated, fails: at UINT_MAX presses of button A one more edge
    makes the counter smaller. *)
Lemma counter_wraps :
  numberPresses ButtonA (mem (after (press board ButtonA) saturated))
  < numberPresses ButtonA (mem saturated).
Proof. by vm_compute. Qed.

(** C9: the result of launching the notification task is ignored. Whatever
    the launch returns, failures included, the handler returns IRQ_HANDLED
    and leaves the statics and the hardware exactly as it does on the
    unmodified platform: the press counter is incremented and the LED flag
    holds the value the handler writes. *)
Theorem launch_result_ignored P f b w :
  result (press (with_umh f P) b) w = IRQ_HANDLED ∧
  mem (after (press (with_umh f P) b) w) = mem (after (press P b) w) ∧
  hw (after (press (with_umh f P) b) w) = hw (after (press P b) w) ∧
  numberPresses b (mem (after (press (with_umh f P) b) w))
  = wrap32 (numberPresses b (mem w) + 1) ∧
  ledOn (led_of b) (mem (after (press (with_umh f P) b) w)) = value_of b ∧
  EvCallUsermodehelper (path_of b) (argv_of b) envp (f (path_of b))
    ∈ events (press (with_umh f P) b) w.
Proof.
  split; [apply press_result|].
  split; [by destruct b|].
  split; [by destruct b|].
  split; [by destruct b|].
  split; [by destruct b|].
  rewrite press_events. apply list_elem_of_In. cbn. tauto.
Qed.

(** C10: every invocation of each of the four handlers, for every interrupt
    number and in every state, returns IRQ_HANDLED. *)
Theorem handler_returns_handled P b irq w :
  result (handler_of P b irq) w = IRQ_HANDLED.
Proof. by destruct b. Qed.

(** ** Further properties

    What a whole run of [ebbgpio_init] leaves in each part of the hardware
    when both LED pins are valid. *)
Lemma init_owned_valid P w :
  plat_valid P gpioLED1 = true → plat_valid P gpioLED2 = true →
  owned (hw (after (ebbgpio_init P) w)) =
  request_line P gpioButtonD (request_line P gpioButtonC
    (request_line P gpioButtonB (request_line P gpioButtonA
      (request_line P gpioLED2 (request_line P gpioLED1 (owned (hw w))))))).
Proof.
  intros H1 H2. destruct w as [g h t]. run_checks H1 H2. run.
  cbv [request_line]. reflexivity.
Qed.

Lemma init_exported_valid P w :
  plat_valid P gpioLED1 = true → plat_valid P gpioLED2 = true →
  exported (hw (after (ebbgpio_init P) w)) =
  let own := request_line P gpioLED2 (request_line P gpioLED1 (owned (hw w))) in
  export_line gpioLED2 own (export_line gpioLED1 own (exported (hw w))).
Proof.
  intros H1 H2. destruct w as [g h t]. run_checks H1 H2. run.
  cbv [request_line export_line]. reflexivity.
Qed.

Lemma init_dir_valid P w :
  plat_valid P gpioLED1 = true → plat_valid P gpioLED2 = true →
  dir (hw (after (ebbgpio_init P) w)) =
  set_line P gpioButtonD DirInput (set_line P gpioButtonC DirInput
    (set_line P gpioButtonB DirInput (set_line P gpioButtonA DirInput
      (set_line P gpioLED2 DirOutput (set_line P gpioLED1 DirOutput
        (dir (hw w))))))).
Proof.
  intros H1 H2. destruct w as [g h t]. run_checks H1 H2. run.
  cbv [set_line]. reflexivity.
Qed.

Lemma init_debounce_valid P w :
  plat_valid P gpioLED1 = true → plat_valid P gpioLED2 = true →
  debounce (hw (after (ebbgpio_init P) w)) =
  set_line P gpioButtonD 200 (set_line P gpioButtonC 200
    (set_line P gpioButtonB 200 (set_line P gpioButtonA 200
      (debounce (hw w))))).
Proof.
  intros H1 H2. destruct w as [g h t]. run_checks H1 H2. run.
  cbv [set_line]. reflexivity.
Qed.

Lemma init_irqs_valid P w :
  plat_valid P gpioLED1 = true → plat_valid P gpioLED2 = true →
  irqs (hw (after (ebbgpio_init P) w)) =
  bind_irq P (irq_of P ButtonD) ButtonD (bind_irq P (irq_of P ButtonC) ButtonC
    (bind_irq P (irq_of P ButtonB) ButtonB (bind_irq P (irq_of P ButtonA) ButtonA
      (irqs (hw w))))).
Proof.
  intros H1 H2. destruct w as [g h t]. run_checks H1 H2. run.
  cbv [bind_irq irq_of gpioButton]. reflexivity.
Qed.

Lemma init_invalid_hw P w :
  plat_valid P gpioLED1 && plat_valid P gpioLED2 = false →
  hw (after (ebbgpio_init P) w) = hw w ∧ mem (after (ebbgpio_init P) w) = mem w.
Proof.
  intros H. unfold after.
  destruct (plat_valid P gpioLED1) eqn:H1.
  - cbn in H. by rewrite init_invalid_led2.
  - by rewrite init_invalid_led1.
Qed.

Lemma elem_of_request_line P p own q :
  q ∈ request_line P p own ↔ q ∈ own ∨ (q = p ∧ plat_valid P p = true).
Proof.
  unfold request_line.
  destruct (plat_valid P p); cbn [andb].
  - destruct (decide (p ∈ own)) as [Hin|Hout].
    + rewrite bool_decide_eq_false_2 by (intros Hn; by apply Hn).
      split; [by left|]. intros [?|[-> _]]; done.
    + rewrite bool_decide_eq_true_2 by done.
      rewrite elem_of_union, elem_of_singleton. tauto.
  - split; [by left|]. intros [?|[_ ?]]; done.
Qed.

Lemma elem_of_export_line p own ex q :
  q ∈ export_line p own ex ↔ q ∈ ex ∨ (q = p ∧ p ∈ own).
Proof.
  unfold export_line.
  destruct (decide (p ∈ own)) as [Hin|Hout].
  - rewrite (bool_decide_eq_true_2 (p ∈ own)) by done. cbn [andb].
    destruct (decide (p ∈ ex)) as [Hex|Hex].
    + rewrite bool_decide_eq_false_2 by (intros Hn; by apply Hn).
      split; [by left|]. intros [?|[-> _]]; done.
    + rewrite bool_decide_eq_true_2 by done.
      rewrite elem_of_union, elem_of_singleton. tauto.
  - rewrite (bool_decide_eq_false_2 (p ∈ own)) by done. cbn [andb].
    split; [by left|]. intros [?|[_ ?]]; done.
Qed.

Lemma lookup_set_line {A} P p (v : A) m q :
  set_line P p v m !! q =
  if decide (p = q) then (if plat_valid P p then Some v else m !! q) else m !! q.
Proof.
  unfold set_line. case_decide as Hq; destruct (plat_valid P p); try done.
  - subst. apply lookup_insert_eq.
  - by apply lookup_insert_ne.
Qed.

Lemma bind_irq_keeps P irq h m k v :
  m !! k = Some v → bind_irq P irq h m !! k = Some v.
Proof.
  intros Hk. unfold bind_irq.
  destruct (plat_irq_ok P irq); cbn [andb]; [|done].
  case_bool_decide as Hn; [|done].
  rewrite lookup_insert_ne; [done|]. intros ->. congruence.
Qed.

Lemma bind_irq_other P irq h m k :
  k ≠ irq → bind_irq P irq h m !! k = m !! k.
Proof.
  intros Hk. unfold bind_irq.
  destruct (_ && _); [|done]. by rewrite lookup_insert_ne.
Qed.

Lemma bind_irq_new P irq h m :
  plat_irq_ok P irq = true → m !! irq = None → bind_irq P irq h m !! irq = Some h.
Proof.
  intros Hok Hn. unfold bind_irq. rewrite Hok, bool_decide_eq_true_2 by done.
  apply lookup_insert_eq.
Qed.

(** Runs of presses. *)
Lemma presses_hw P bs : ∀ w, ∃ lv, hw (presses P bs w) = set_level lv (hw w).
Proof.
  induction bs as [|b bs IH]; intros w; cbn [presses].
  - exists (level (hw w)). by destruct (hw w).
  - destruct (IH (after (press P b) w)) as [lv ->]. rewrite press_hw. by exists lv.
Qed.

Lemma presses_irqNumber P bs c : ∀ w,
  irqNumber c (mem (presses P bs w)) = irqNumber c (mem w).
Proof.
  induction bs as [|b bs IH]; intros w; cbn [presses]; [done|].
  by rewrite IH, press_irqNumber.
Qed.

Lemma press_trace P b w :
  trace (after (press P b) w) = reverse (events (press P b) w) ++ trace w.
Proof. rewrite press_events. by destruct b. Qed.

Lemma presses_trace P bs : ∀ w,
  trace (presses P bs w) = reverse (run_log P bs w) ++ trace w.
Proof.
  induction bs as [|b bs IH]; intros w; cbn [presses run_log]; [done|].
  rewrite IH, press_trace, reverse_app. by rewrite <- app_assoc.
Qed.

Lemma run_presses_events P bs w : events (run_presses P bs) w = run_log P bs w.
Proof.
  rewrite (events_intro _ _ (reverse (run_log P bs w))).
  - apply reverse_involutive.
  - apply presses_trace.
Qed.

(** X1: when both LED pins are valid, the lines owned after init are the
    lines owned before together with every valid pin among the six pins of
    the module; an invalid button pin is not acquired. *)
Theorem init_acquires_valid_lines P w p :
  plat_valid P gpioLED1 = true → plat_valid P gpioLED2 = true →
  p ∈ owned (hw (after (ebbgpio_init P) w)) ↔
  p ∈ owned (hw w) ∨ (p ∈ module_pins ∧ plat_valid P p = true).
Proof.
  intros H1 H2. rewrite init_owned_valid by done.
  rewrite !elem_of_request_line. unfold module_pins.
  rewrite !elem_of_union, !elem_of_singleton.
  split.
  - intros [[[[[[?|[-> ?]]|[-> ?]]|[-> ?]]|[-> ?]]|[-> ?]]|[-> ?]]; tauto.
  - intros [?|[[[[[[->| ->]| ->]| ->]| ->]| ->] ?]]; tauto.
Qed.

Lemma init_acquires_valid_lines_witness :
  gpioButtonC ∈ owned (hw (after (ebbgpio_init board) boot)) ∧
  gpioButtonC ∉ owned (hw (after (ebbgpio_init small_board) boot)).
Proof.
  split.
  - apply (init_acquires_valid_lines board boot gpioButtonC eq_refl eq_refl).
    right. split; [|reflexivity]. compute_done.
  - intros Hin.
    apply (init_acquires_valid_lines small_board boot gpioButtonC eq_refl eq_refl)
      in Hin as [Hin|[_ Hv]]; [|discriminate].
    by apply elem_of_empty in Hin.
Defined.

(** X2: when both LED pins are valid, init exports the two LED lines and
    nothing else: the exported lines after init are those exported before
    plus LED1 and LED2, never a button line. *)
Theorem init_exports_only_leds P w :
  plat_valid P gpioLED1 = true → plat_valid P gpioLED2 = true →
  exported (hw (after (ebbgpio_init P) w)) = {[gpioLED1; gpioLED2]} ∪ exported (hw w).
Proof.
  intros H1 H2. rewrite init_exported_valid by done. cbn zeta.
  apply set_eq. intros q.
  rewrite !elem_of_export_line, !elem_of_request_line.
  rewrite !elem_of_union, !elem_of_singleton, H1, H2.
  split.
  - intros [[?|[-> _]]|[-> _]]; tauto.
  - intros [[->| ->]|?]; [| |tauto].
    + left. right. split; [done|]. left. by right.
    + right. split; [done|]. by right.
Qed.

Lemma init_exports_only_leds_witness :
  exported (hw (after (ebbgpio_init board) boot)) = {[gpioLED1; gpioLED2]} ∪ ∅.
Proof. exact (init_exports_only_leds board boot eq_refl eq_refl). Defined.

(** X3: when both LED pins are valid, after init each LED line is an
    output, and each button line whose pin is valid is an input with a
    debounce of 200 ms. *)
Theorem init_configures_lines P w :
  plat_valid P gpioLED1 = true → plat_valid P gpioLED2 = true →
  (∀ l, dir (hw (after (ebbgpio_init P) w)) !! gpioLED l = Some DirOutput) ∧
  (∀ b, plat_valid P (gpioButton b) = true →
     dir (hw (after (ebbgpio_init P) w)) !! gpioButton b = Some DirInput ∧
     debounce (hw (after (ebbgpio_init P) w)) !! gpioButton b = Some 200).
Proof.
  intros H1 H2. rewrite init_dir_valid, init_debounce_valid by done.
  split.
  - intros l. rewrite !lookup_set_line.
    destruct l; cbn [gpioLED]; repeat case_decide; try done; by rewrite ?H1, ?H2.
  - intros b Hb. rewrite !lookup_set_line.
    destruct b; cbn [gpioButton] in *; repeat case_decide; try done;
      by rewrite ?Hb.
Qed.

Lemma init_configures_lines_witness :
  dir (hw (after (ebbgpio_init board) boot)) !! gpioLED LED2 = Some DirOutput ∧
  dir (hw (after (ebbgpio_init board) boot)) !! gpioButton ButtonD = Some DirInput ∧
  debounce (hw (after (ebbgpio_init board) boot)) !! gpioButton ButtonD = Some 200.
Proof.
  destruct (init_configures_lines board boot eq_refl eq_refl) as [Hl Hb].
  exact (conj (Hl LED2) (Hb ButtonD eq_refl)).
Defined.

(** X4: when both LED pins are valid and the four interrupt numbers of the
    buttons are accepted by the platform, free before init and pairwise
    distinct, init stores the number of each button and binds it to the
    handler of that button. *)
Theorem init_binds_each_handler P w :
  plat_valid P gpioLED1 = true → plat_valid P gpioLED2 = true →
  (∀ b, plat_irq_ok P (irq_of P b) = true) →
  (∀ b, irqs (hw w) !! irq_of P b = None) →
  (∀ b c, b ≠ c → irq_of P b ≠ irq_of P c) →
  ∀ b, irqNumber b (mem (after (ebbgpio_init P) w)) = irq_of P b ∧
       irqs (hw (after (ebbgpio_init P) w)) !! irq_of P b = Some b.
Proof.
  intros H1 H2 Hok Hfree Hne b.
  rewrite init_mem_valid, init_irqs_valid by done.
  split; [by destruct b|].
  destruct b.
  - do 3 (apply bind_irq_keeps). by apply bind_irq_new.
  - do 2 (apply bind_irq_keeps). apply bind_irq_new; [done|].
    rewrite bind_irq_other by (by apply Hne). done.
  - apply bind_irq_keeps. apply bind_irq_new; [done|].
    rewrite !bind_irq_other by (by apply Hne). done.
  - apply bind_irq_new; [done|].
    rewrite !bind_irq_other by (by apply Hne). done.
Qed.

Lemma init_binds_each_handler_witness :
  irqs (hw (after (ebbgpio_init board) boot)) !! irq_of board ButtonC = Some ButtonC.
Proof.
  refine (proj2 (init_binds_each_handler board boot eq_refl eq_refl _ _ _ ButtonC)).
  - done.
  - done.
  - intros b c Hbc E. apply Hbc. by destruct b, c.
Defined.

(** X5: init never replaces an interrupt binding that existed before it,
    and it changes no binding of an interrupt number other than those of its
    four buttons. *)
Theorem init_keeps_foreign_bindings P w :
  (∀ k v, irqs (hw w) !! k = Some v →
          irqs (hw (after (ebbgpio_init P) w)) !! k = Some v) ∧
  (∀ k, (∀ b, k ≠ irq_of P b) →
        irqs (hw (after (ebbgpio_init P) w)) !! k = irqs (hw w) !! k).
Proof.
  destruct (plat_valid P gpioLED1 && plat_valid P gpioLED2) eqn:Hv.
  - apply andb_true_iff in Hv as [H1 H2]. rewrite init_irqs_valid by done. split.
    + intros k v Hk. by do 4 apply bind_irq_keeps.
    + intros k Hk. rewrite !bind_irq_other by apply Hk. done.
  - destruct (init_invalid_hw P w Hv) as [-> _]. done.
Qed.

Lemma init_keeps_foreign_bindings_witness :
  irqs (hw (after (ebbgpio_init shared_irq_board)
              (World statics (set_irqs {[ 7 := ButtonD ]} no_hardware) [])))
    !! 7 = Some ButtonD.
Proof.
  apply (proj1 (init_keeps_foreign_bindings shared_irq_board _)). reflexivity.
Defined.

(** X6: when both LED pins are valid, init returns 0 exactly when the
    interrupt of button A is accepted by the platform and free, whatever
    becomes of the registrations for B, C and D; and when init returns 0 the
    interrupt of A is bound to the handler of A. *)
Theorem init_succeeds_on_first_binding P w :
  plat_valid P gpioLED1 = true → plat_valid P gpioLED2 = true →
  (result (ebbgpio_init P) w = 0 ↔
   plat_irq_ok P (irq_of P ButtonA) = true ∧
   irqs (hw w) !! irq_of P ButtonA = None) ∧
  (result (ebbgpio_init P) w = 0 →
   irqs (hw (after (ebbgpio_init P) w)) !! irq_of P ButtonA = Some ButtonA).
Proof.
  intros H1 H2.
  assert (Hres : result (ebbgpio_init P) w = 0 ↔
            plat_irq_ok P (irq_of P ButtonA) = true ∧
            irqs (hw w) !! irq_of P ButtonA = None).
  { rewrite init_result_valid by done.
    cbv [result request_irq mbind M_bind mret M_ret get_hw put_hw emit fst
         EBUSY EINVAL].
    change (wrap32 (plat_irq P gpioButtonA)) with (irq_of P ButtonA).
    destruct (plat_irq_ok P (irq_of P ButtonA)); cbn [andb].
    - case_bool_decide; split; try done. by intros [_ ?].
    - split; [done|]. by intros [? _]. }
  split; [done|].
  intros [Hok Hfree]%Hres. rewrite init_irqs_valid by done.
  do 3 apply bind_irq_keeps. by apply bind_irq_new.
Qed.

Lemma init_succeeds_on_first_binding_witness :
  result (ebbgpio_init shared_irq_board) boot = 0 ∧
  irqs (hw (after (ebbgpio_init shared_irq_board) boot)) !! 7 = Some ButtonA.
Proof.
  destruct (init_succeeds_on_first_binding shared_irq_board boot eq_refl eq_refl)
    as [Hres Hbound].
  assert (H0 : result (ebbgpio_init shared_irq_board) boot = 0).
  { apply Hres. split; reflexivity. }
  exact (conj H0 (Hbound H0)).
Defined.

(** X7: no run of handler invocations changes which lines are owned or
    exported, any direction, debounce setting or interrupt binding, the level
    of any line other than the two LED lines, or a stored interrupt number. *)
Theorem presses_touch_only_led_levels P bs w :
  owned (hw (presses P bs w)) = owned (hw w) ∧
  exported (hw (presses P bs w)) = exported (hw w) ∧
  dir (hw (presses P bs w)) = dir (hw w) ∧
  debounce (hw (presses P bs w)) = debounce (hw w) ∧
  irqs (hw (presses P bs w)) = irqs (hw w) ∧
  (∀ p, p ≠ gpioLED1 → p ≠ gpioLED2 →
        level (hw (presses P bs w)) !! p = level (hw w) !! p) ∧
  (∀ b, irqNumber b (mem (presses P bs w)) = irqNumber b (mem w)).
Proof.
  destruct (presses_hw P bs w) as [lv E].
  do 5 (split; [by rewrite E|]).
  split; [|intros b; apply presses_irqNumber].
  clear lv E. revert w.
  induction bs as [|b bs IH]; intros w p Hp1 Hp2; cbn [presses]; [done|].
  rewrite IH, press_hw by done. cbn [level set_level].
  destruct (plat_valid P _); [|done].
  apply lookup_insert_ne. by destruct b.
Qed.

(** X8: after a run of presses the flag of a LED is the value written by
    the last pressed button that drives this LED (on for A and C, off for B
    and D), and its value before the run when no such button was pressed. *)
Theorem last_press_decides_led P l bs : ∀ w,
  ledOn l (mem (presses P bs w)) =
  from_option value_of (ledOn l (mem w)) (last_press l bs).
Proof.
  unfold last_press.
  induction bs as [|b bs IH]; intros w; cbn [presses]; [done|].
  rewrite IH, press_ledOn.
  destruct (decide (led_of b = l)) as [<-|Hne].
  - rewrite filter_cons_True by done. rewrite last_cons, decide_True by done.
    by destruct (last _).
  - rewrite filter_cons_False by done. rewrite decide_False by done. done.
Qed.

(** X9: when both LED pins are valid, after init the flag of each LED equals
    the level of its line, and every run of presses keeps this. *)
Theorem leds_stay_coherent P bs w :
  plat_valid P gpioLED1 = true → plat_valid P gpioLED2 = true →
  leds_coherent (after (ebbgpio_init P) w) ∧
  (leds_coherent w → leds_coherent (presses P bs w)).
Proof.
  intros H1 H2. split.
  - intros l. rewrite init_level_valid, init_mem_valid by done.
    destruct l; cbn [gpioLED ledOn led1On led2On].
    + rewrite lookup_insert_ne by done. apply lookup_insert_eq.
    + apply lookup_insert_eq.
  - revert w. induction bs as [|b bs IH]; intros w Hc; cbn [presses]; [done|].
    apply IH. intros l. rewrite press_hw, press_ledOn. cbn [level set_level].
    assert (Hv : plat_valid P (gpioLED (led_of b)) = true) by by destruct b.
    rewrite Hv. destruct (decide (l = led_of b)) as [->|Hne].
    + apply lookup_insert_eq.
    + rewrite lookup_insert_ne by (by destruct b, l). apply Hc.
Qed.

Lemma leds_stay_coherent_witness :
  leds_coherent (presses board [ButtonA; ButtonD; ButtonB] running).
Proof.
  destruct (leds_stay_coherent board [ButtonA; ButtonD; ButtonB] boot eq_refl eq_refl)
    as [Hi _].
  destruct (leds_stay_coherent board [ButtonA; ButtonD; ButtonB] running eq_refl eq_refl)
    as [_ Hp].
  exact (Hp Hi).
Defined.

(** X10: after a run of presses the counter of a button, if it was within
    the 32-bit range, is its old value plus the number of presses of that
    button in the run, modulo 2^32. *)
Theorem presses_count_mod P bs c : ∀ w,
  0 ≤ numberPresses c (mem w) < 2 ^ 32 →
  numberPresses c (mem (presses P bs w)) =
  wrap32 (numberPresses c (mem w) + count_presses c bs).
Proof.
  unfold count_presses, wrap32.
  induction bs as [|b bs IH]; intros w Hr; cbn [presses List.filter].
  - cbn. rewrite Z.add_0_r. by rewrite Z.mod_small.
  - pose proof (press_numberPresses P b c w) as Hs. unfold wrap32 in Hs.
    rewrite IH.
    + rewrite Hs. destruct (decide (c = b)) as [->|Hne].
      * rewrite bool_decide_eq_true_2 by done. cbn [length].
        rewrite Zplus_mod_idemp_l. f_equal. lia.
      * by rewrite bool_decide_eq_false_2 by done.
    + rewrite Hs. case_decide; [|done]. by apply Z.mod_pos_bound.
Qed.

Lemma presses_count_mod_witness :
  numberPresses ButtonA (mem (presses board [ButtonA; ButtonB; ButtonA] saturated)) = 1.
Proof.
  refine (presses_count_mod board [ButtonA; ButtonB; ButtonA] ButtonA saturated _).
  split; by vm_compute.
Defined.

(** X11: a run of presses launches exactly one helper per press, in the
    order of the presses, each with the script of its button as path and only
    argument, the environment HOME=/, and the outcome the platform gives. *)
Theorem one_launch_per_press P bs w :
  launches (events (run_presses P bs) w) =
  (λ b, (path_of b, [path_of b], ["HOME=/"], plat_umh P (path_of b))) <$> bs.
Proof.
  rewrite run_presses_events. revert w.
  induction bs as [|b bs IH]; intros w; cbn [run_log fmap list_fmap]; [done|].
  unfold launches in *. rewrite omap_app, IH, press_events. by destruct b.
Qed.

(** X12: after exit none of the four stored interrupt numbers is bound, the
    bindings of all other interrupt numbers are as before, the exported lines
    are those exported before minus the six pins of the module, and no
    direction or debounce setting has changed. *)
Theorem exit_unbinds_and_unexports P w :
  (∀ b, irqs (hw (after (ebbgpio_exit P) w)) !! irqNumber b (mem w) = None) ∧
  (∀ k, (∀ b, k ≠ irqNumber b (mem w)) →
        irqs (hw (after (ebbgpio_exit P) w)) !! k = irqs (hw w) !! k) ∧
  (∀ p, p ∈ exported (hw (after (ebbgpio_exit P) w)) ↔
        p ∈ exported (hw w) ∧ p ∉ module_pins) ∧
  dir (hw (after (ebbgpio_exit P) w)) = dir (hw w) ∧
  debounce (hw (after (ebbgpio_exit P) w)) = debounce (hw w).
Proof.
  rewrite exit_irqs, exit_exported.
  split; [|split; [|split; [|done]]].
  - intros b. rewrite !lookup_delete. destruct b; cbn [irqNumber];
      repeat case_decide; done.
  - intros k Hk.
    rewrite !lookup_delete_ne; [done| | | |].
    + intros E. by apply (Hk ButtonA).
    + intros E. by apply (Hk ButtonB).
    + intros E. by apply (Hk ButtonC).
    + intros E. by apply (Hk ButtonD).
  - intros p. apply elem_of_difference.
Qed.

(** X13: load, a run of presses, unload: when the module is loaded fresh
    with valid LED pins, the summary that exit logs for a button shows the
    number of presses of that button in the run as long as this number is
    below 2^31; from 2^31 up to UINT_MAX presses the line, printed with [%d],
    shows that number minus 2^32. *)
Theorem session_log_reports_presses P bs w b :
  mem w = statics →
  plat_valid P gpioLED1 = true → plat_valid P gpioLED2 = true →
  count_presses b bs ≤ UINT_MAX →
  EvPrintk (summary_fmt b)
    [if count_presses b bs <? 2 ^ 31 then count_presses b bs
     else count_presses b bs - 2 ^ 32]
  ∈ events (ebbgpio_exit P) (presses P bs (after (ebbgpio_init P) w)).
Proof.
  intros Hm H1 H2 Hc.
  assert (H0 : 0 ≤ count_presses b bs) by (unfold count_presses; lia).
  assert (Hn : numberPresses b (mem (presses P bs (after (ebbgpio_init P) w)))
               = count_presses b bs).
  { rewrite presses_count; rewrite init_mem_valid, Hm by done;
      destruct b; cbn; lia. }
  assert (Hs : as_int (count_presses b bs)
               = if count_presses b bs <? 2 ^ 31 then count_presses b bs
                 else count_presses b bs - 2 ^ 32).
  { unfold UINT_MAX in Hc. destruct (Z.ltb_spec (count_presses b bs) (2 ^ 31)).
    - apply as_int_small. lia.
    - apply as_int_large. lia. }
  rewrite <- Hs, exit_events. apply list_elem_of_In.
  destruct b; cbn [numberPresses summary_fmt] in *; rewrite Hn; cbn [In]; tauto.
Qed.

Lemma session_log_reports_presses_witness :
  EvPrintk "Button C has been pressed %d times." [2]
  ∈ events (ebbgpio_exit board)
      (presses board [ButtonC; ButtonA; ButtonC] (after (ebbgpio_init board) boot)).
Proof.
  refine (session_log_reports_presses board [ButtonC; ButtonA; ButtonC] boot ButtonC
            eq_refl eq_refl eq_refl _).
  vm_compute. intros Hc. discriminate Hc.
Defined.

(** X14: load, a run of presses, unload gives back what it took: when both
    LED pins are valid, none of the six pins was owned or exported and none of
    the four interrupt numbers was bound before, then after exit the owned
    lines, the exported lines and the interrupt bindings are exactly those
    from before init. *)
Theorem session_round_trip P bs w :
  plat_valid P gpioLED1 = true → plat_valid P gpioLED2 = true →
  owned (hw w) ## module_pins →
  exported (hw w) ## module_pins →
  (∀ b, irqs (hw w) !! irq_of P b = None) →
  owned (hw (session P bs w)) = owned (hw w) ∧
  exported (hw (session P bs w)) = exported (hw w) ∧
  irqs (hw (session P bs w)) = irqs (hw w).
Proof.
  intros H1 H2 Hown Hex Hirq. unfold session.
  destruct (presses_hw P bs (after (ebbgpio_init P) w)) as [lv E].
  assert (Hmp : ∀ p, p ∈ module_pins ↔
            p = gpioLED1 ∨ p = gpioLED2 ∨ p = gpioButtonA ∨ p = gpioButtonB ∨
            p = gpioButtonC ∨ p = gpioButtonD).
  { intros p. unfold module_pins. rewrite !elem_of_union, !elem_of_singleton. tauto. }
  split; [|split].
  - rewrite exit_owned, E. cbn [owned set_level].
    rewrite init_owned_valid by done. apply set_eq. intros p.
    rewrite elem_of_difference, !elem_of_request_line.
    split.
    + intros [Hin Hout]. rewrite Hmp in Hout.
      destruct Hin as [[[[[[?|[-> ?]]|[-> ?]]|[-> ?]]|[-> ?]]|[-> ?]]|[-> ?]];
        tauto.
    + intros Hp. split; [tauto|]. intros Hm. by apply (Hown p).
  - rewrite exit_exported, E. cbn [exported set_level].
    rewrite init_exported_valid by done. cbn zeta. apply set_eq. intros p.
    rewrite elem_of_difference, !elem_of_export_line.
    split.
    + intros [Hin Hout]. rewrite Hmp in Hout.
      destruct Hin as [[?|[-> ?]]|[-> ?]]; tauto.
    + intros Hp. split; [tauto|]. intros Hm. by apply (Hex p).
  - pose proof (presses_irqNumber P bs ButtonA (after (ebbgpio_init P) w)) as EA.
    pose proof (presses_irqNumber P bs ButtonB (after (ebbgpio_init P) w)) as EB.
    pose proof (presses_irqNumber P bs ButtonC (after (ebbgpio_init P) w)) as EC.
    pose proof (presses_irqNumber P bs ButtonD (after (ebbgpio_init P) w)) as ED.
    cbn [irqNumber] in EA, EB, EC, ED.
    rewrite exit_irqs, E, EA, EB, EC, ED. cbn [irqs set_level].
    rewrite init_mem_valid, init_irqs_valid by done.
    cbn [irqNumberA irqNumberB irqNumberC irqNumberD].
    change (wrap32 (plat_irq P gpioButtonA)) with (irq_of P ButtonA).
    change (wrap32 (plat_irq P gpioButtonB)) with (irq_of P ButtonB).
    change (wrap32 (plat_irq P gpioButtonC)) with (irq_of P ButtonC).
    change (wrap32 (plat_irq P gpioButtonD)) with (irq_of P ButtonD).
    apply map_eq. intros k.
    destruct (decide (k = irq_of P ButtonA ∨ k = irq_of P ButtonB ∨
                      k = irq_of P ButtonC ∨ k = irq_of P ButtonD)) as [Hk|Hk].
    + transitivity (@None button).
      * rewrite !lookup_delete. repeat case_decide; try done.
        exfalso. destruct Hk as [?|[?|[?|?]]]; congruence.
      * destruct Hk as [->|[->|[->| ->]]]; symmetry; apply Hirq.
    + rewrite !lookup_delete_ne, !bind_irq_other; [done|..]; intros Eq; apply Hk; auto.
Qed.

Lemma session_round_trip_witness :
  owned (hw (session board [ButtonA; ButtonC] boot)) = ∅ ∧
  exported (hw (session board [ButtonA; ButtonC] boot)) = ∅ ∧
  irqs (hw (session board [ButtonA; ButtonC] boot)) = ∅.
Proof.
  apply (session_round_trip board [ButtonA; ButtonC] boot eq_refl eq_refl).
  - intros p Hp. by apply elem_of_empty in Hp.
  - intros p Hp. by apply elem_of_empty in Hp.
  - intros b. apply lookup_empty.
Defined.

Lemma exit_unbinds_and_unexports_witness :
  irqs (hw (after (ebbgpio_exit board) running)) !! irqNumber ButtonA (mem running) = None ∧
  irqs (hw (after (ebbgpio_exit board) running)) !! 5 = irqs (hw running) !! 5.
Proof.
  split.
  - exact (proj1 (exit_unbinds_and_unexports board running) ButtonA).
  - apply (proj1 (proj2 (exit_unbinds_and_unexports board running)) 5).
    intros b; destruct b; by vm_compute.
Defined.

Lemma presses_touch_only_led_levels_witness :
  level (hw (presses board [ButtonA; ButtonD] running)) !! gpioButtonA
  = level (hw running) !! gpioButtonA.
Proof.
  apply (proj1 (proj2 (proj2 (proj2 (proj2 (proj2
            (presses_touch_only_led_levels board [ButtonA; ButtonD] running))))))
            gpioButtonA); done.
Defined.

(** X15: a handler invocation logs exactly one line, the interrupt message
    of its button, carrying the level of the button line (which the write to
    the LED line leaves as it was). *)
Theorem handler_logs_button_level P b w :
  omap (λ e, match e with EvPrintk fmt args => Some (fmt, args) | _ => None end)
       (events (press P b) w)
  = [(interrupt_fmt b, [Z.b2z (default false (level (hw w) !! gpioButton b))])].
Proof.
  rewrite press_events, press_hw. cbn [omap level set_level].
  rewrite as_int_b2z. do 3 f_equal.
  destruct (plat_valid P _); [|done].
  rewrite lookup_insert_ne; [done|]. by destruct b.
Qed.
